(** * A contact manager: names, phone numbers and birthdays

    Shallow embedding of [HW7.1.py] and the properties of its
    specification.  Python values are modelled as follows:

    - a [str] is the list of its Unicode code points ([len] counts code
      points, and [str.isdigit] looks at each of them);
    - a [datetime] is the record of its seven naive fields;
    - the insertion-ordered [dict] of [AddressBook.records] is an
      association list in insertion order;
    - an exception is a value of [exn]; a function that may raise returns a
      [result], and a handler returns its result together with the address
      book it leaves behind, because a handler that raises half-way keeps
      the mutations it has already made. *)

From Stdlib Require Import ZArith NArith List String Ascii Bool Lia.
From Stdlib Require Import DecimalString.
Import ListNotations.

(* ================================================================== *)
(** ** Python strings *)

Module PyStr.

Definition char := N.
Definition str := list char.

(** An ASCII literal of the source, as a Python string. *)
Definition lit (s : string) : str :=
  List.map N_of_ascii (list_ascii_of_string s).

Definition eqb (a b : str) : bool :=
  if list_eq_dec N.eq_dec a b then true else false.

Definition len (s : str) : Z := Z.of_nat (List.length s).

Definition in_range (c : char) (r : N * N) : bool :=
  ((fst r <=? c) && (c <=? snd r))%N.

Definition in_ranges (tbl : list (N * N)) (c : char) : bool :=
  existsb (in_range c) tbl.

(** Code points with [Numeric_Type=Decimal] (general category Nd) in the
    Unicode 14.0.0 database of CPython 3.11, as inclusive ranges.  Every
    range starts at a digit zero and is a whole number of runs 0..9. *)
Definition DECIMAL_RANGES : list (N * N) :=
  [ (48, 57); (1632, 1641); (1776, 1785); (1984, 1993); (2406, 2415);
    (2534, 2543); (2662, 2671); (2790, 2799); (2918, 2927); (3046, 3055);
    (3174, 3183); (3302, 3311); (3430, 3439); (3558, 3567); (3664, 3673);
    (3792, 3801); (3872, 3881); (4160, 4169); (4240, 4249); (6112, 6121);
    (6160, 6169); (6470, 6479); (6608, 6617); (6784, 6793); (6800, 6809);
    (6992, 7001); (7088, 7097); (7232, 7241); (7248, 7257); (42528, 42537);
    (43216, 43225); (43264, 43273); (43472, 43481); (43504, 43513);
    (43600, 43609); (44016, 44025); (65296, 65305); (66720, 66729);
    (68912, 68921); (69734, 69743); (69872, 69881); (69942, 69951);
    (70096, 70105); (70384, 70393); (70736, 70745); (70864, 70873);
    (71248, 71257); (71360, 71369); (71472, 71481); (71904, 71913);
    (72016, 72025); (72784, 72793); (73040, 73049); (73120, 73129);
    (92768, 92777); (92864, 92873); (93008, 93017); (120782, 120831);
    (123200, 123209); (123632, 123641); (125264, 125273);
    (130032, 130041) ]%N.

(** Code points with [Numeric_Type=Digit] that are not decimal:
    superscripts, subscripts, circled and parenthesised digits, ... *)
Definition DIGIT_ONLY_RANGES : list (N * N) :=
  [ (178, 179); (185, 185); (4969, 4977); (6618, 6618); (8304, 8304);
    (8308, 8313); (8320, 8329); (9312, 9320); (9332, 9340); (9352, 9360);
    (9450, 9450); (9461, 9469); (9471, 9471); (10102, 10110);
    (10112, 10120); (10122, 10130); (68160, 68163); (69216, 69224);
    (69714, 69722); (127232, 127242) ]%N.

(** [str.isdecimal] on one character; also what [\d] matches in a [re]
    pattern over [str]. *)
Definition isdecimal_char (c : char) : bool := in_ranges DECIMAL_RANGES c.

(** [str.isdigit] on one character. *)
Definition isdigit_char (c : char) : bool :=
  isdecimal_char c || in_ranges DIGIT_ONLY_RANGES c.

(** [str.isdigit]: all characters are digits and there is at least one. *)
Definition isdigit (s : str) : bool :=
  match s with
  | [] => false
  | _ => forallb isdigit_char s
  end.

(** The decimal value of a character, when it has one. *)
Definition decimal_value (c : char) : option N :=
  match List.find (in_range c) DECIMAL_RANGES with
  | Some r => Some ((c - fst r) mod 10)%N
  | None => None
  end.

(** [int(s)] for the strings [_strptime] hands to it: optional leading
    spaces, then decimal characters only.  [None] stands for the
    [ValueError] of [int]. *)
Fixpoint int_digits (acc : Z) (s : str) : option Z :=
  match s with
  | [] => Some acc
  | c :: s' =>
      match decimal_value c with
      | Some v => int_digits (10 * acc + Z.of_N v) s'
      | None => None
      end
  end.

Fixpoint lstrip_spaces (s : str) : str :=
  match s with
  | 32%N :: s' => lstrip_spaces s'
  | _ => s
  end.

Definition int (s : str) : option Z :=
  match lstrip_spaces s with
  | [] => None
  | t => int_digits 0 t
  end.

(** [sep.join(l)] *)
Fixpoint join (sep : str) (l : list str) : str :=
  match l with
  | [] => []
  | [x] => x
  | x :: l' => x ++ sep ++ join sep l'
  end.

(** Truth value of a string: non-empty. *)
Definition truthy (s : str) : bool :=
  match s with [] => false | _ => true end.

(** The ASCII digits, the only characters the specification calls
    decimal digits. *)
Definition ascii_digit (c : char) : bool := ((48 <=? c) && (c <=? 57))%N.

End PyStr.

Import PyStr.

(* ================================================================== *)
(** ** Exceptions *)

Inductive exn : Type :=
| ValueError (msg : str)
| IndexError (msg : str)
| KeyError
| AttributeError
| OverflowError.

Inductive result (A : Type) : Type :=
| Ok (a : A)
| Raise (e : exn).

Arguments Ok {A} a.
Arguments Raise {A} e.

Definition bind {A B} (r : result A) (k : A -> result B) : result B :=
  match r with
  | Ok a => k a
  | Raise e => Raise e
  end.

Notation "x <- r ;; k" := (bind r (fun x => k))
  (at level 61, r at next level, right associativity).

(* ================================================================== *)
(** ** Dates and times

    The naive [datetime] of the standard library: field checks, the
    proleptic Gregorian ordinal, comparison, [replace(year=...)],
    addition of whole days and [strftime('%d.%m.%Y')]. *)

Module Calendar.

Local Open Scope Z_scope.

Definition MINYEAR : Z := 1.
Definition MAXYEAR : Z := 9999.
Definition MAXORDINAL : Z := 3652059.

Definition DAYS_IN_MONTH : list Z :=
  [-1; 31; 28; 31; 30; 31; 30; 31; 31; 30; 31; 30; 31].

Definition DAYS_BEFORE_MONTH : list Z :=
  [-1; 0; 31; 59; 90; 120; 151; 181; 212; 243; 273; 304; 334].

Definition is_leap (year : Z) : bool :=
  (year mod 4 =? 0) && (negb (year mod 100 =? 0) || (year mod 400 =? 0)).

Definition days_before_year (year : Z) : Z :=
  let y := year - 1 in
  y * 365 + y / 4 - y / 100 + y / 400.

Definition days_in_month (year month : Z) : Z :=
  if (month =? 2) && is_leap year then 29
  else nth (Z.to_nat month) DAYS_IN_MONTH 0.

Definition days_before_month (year month : Z) : Z :=
  nth (Z.to_nat month) DAYS_BEFORE_MONTH 0
  + (if (2 <? month) && is_leap year then 1 else 0).

Definition ymd2ord (year month day : Z) : Z :=
  days_before_year year + days_before_month year month + day.

Definition DI400Y : Z := 146097.
Definition DI100Y : Z := 36524.
Definition DI4Y : Z := 1461.

Definition ord2ymd (n : Z) : Z * Z * Z :=
  let n := n - 1 in
  let n400 := n / DI400Y in
  let n := n mod DI400Y in
  let year := n400 * 400 + 1 in
  let n100 := n / DI100Y in
  let n := n mod DI100Y in
  let n4 := n / DI4Y in
  let n := n mod DI4Y in
  let n1 := n / 365 in
  let n := n mod 365 in
  let year := year + n100 * 100 + n4 * 4 + n1 in
  if (n1 =? 4) || (n100 =? 4) then (year - 1, 12, 31)
  else
    let leapyear := (n1 =? 3) && (negb (n4 =? 24) || (n100 =? 3)) in
    let month := Z.shiftr (n + 50) 5 in
    let preceding :=
      nth (Z.to_nat month) DAYS_BEFORE_MONTH 0
      + (if (2 <? month) && leapyear then 1 else 0) in
    if n <? preceding then
      let month := month - 1 in
      let preceding :=
        preceding
        - (nth (Z.to_nat month) DAYS_IN_MONTH 0
           + (if (month =? 2) && leapyear then 1 else 0)) in
      (year, month, n - preceding + 1)
    else (year, month, n - preceding + 1).

Record datetime : Type := mkdatetime {
  year : Z; month : Z; day : Z;
  hour : Z; minute : Z; second : Z; microsecond : Z
}.

(** Decimal numeral of an integer, as [str(n)]. *)
Definition str_of_Z (z : Z) : str := lit (NilZero.string_of_int (Z.to_int z)).

Definition check_date_fields (y m d : Z) : result unit :=
  if negb ((MINYEAR <=? y) && (y <=? MAXYEAR)) then
    Raise (ValueError (lit "year " ++ str_of_Z y ++ lit " is out of range"))
  else if negb ((1 <=? m) && (m <=? 12)) then
    Raise (ValueError (lit "month must be in 1..12"))
  else if negb ((1 <=? d) && (d <=? days_in_month y m)) then
    Raise (ValueError (lit "day is out of range for month"))
  else Ok tt.

Definition check_time_fields (hh mm ss us : Z) : result unit :=
  if negb ((0 <=? hh) && (hh <=? 23)) then
    Raise (ValueError (lit "hour must be in 0..23"))
  else if negb ((0 <=? mm) && (mm <=? 59)) then
    Raise (ValueError (lit "minute must be in 0..59"))
  else if negb ((0 <=? ss) && (ss <=? 59)) then
    Raise (ValueError (lit "second must be in 0..59"))
  else if negb ((0 <=? us) && (us <=? 999999)) then
    Raise (ValueError (lit "microsecond must be in 0..999999"))
  else Ok tt.

(** [datetime(y, m, d, hh, mm, ss, us)] *)
Definition datetime_new (y m d hh mm ss us : Z) : result datetime :=
  _ <- check_date_fields y m d ;;
  _ <- check_time_fields hh mm ss us ;;
  Ok (mkdatetime y m d hh mm ss us).

(** [self.replace(year=y)] *)
Definition replace_year (self : datetime) (y : Z) : result datetime :=
  datetime_new y (month self) (day self)
               (hour self) (minute self) (second self) (microsecond self).

Definition toordinal (self : datetime) : Z :=
  ymd2ord (year self) (month self) (day self).

(** [self + timedelta(days=n)]; [None] is the [OverflowError] of a
    result outside [date.min .. date.max].  Adding whole days leaves the
    time of day of a well-formed [datetime] as it is. *)
Definition add_days (self : datetime) (n : Z) : option datetime :=
  let o := toordinal self + n in
  if (0 <? o) && (o <=? MAXORDINAL) then
    let '(y, m, d) := ord2ymd o in
    Some (mkdatetime y m d
                     (hour self) (minute self) (second self)
                     (microsecond self))
  else None.

Definition fields (d : datetime) : list Z :=
  [year d; month d; day d; hour d; minute d; second d; microsecond d].

(** Comparison of tuples, component by component. *)
Fixpoint tuple_cmp (a b : list Z) : comparison :=
  match a, b with
  | [], [] => Eq
  | [], _ :: _ => Lt
  | _ :: _, [] => Gt
  | x :: a', y :: b' =>
      match x ?= y with
      | Eq => tuple_cmp a' b'
      | c => c
      end
  end.

(** [a <= b] on naive datetimes. *)
Definition dt_le (a b : datetime) : bool :=
  match tuple_cmp (fields a) (fields b) with
  | Gt => false
  | _ => true
  end.

Definition digit_char (n : Z) : char := (48 + Z.to_N n)%N.

(** A field printed on two digits, zero-padded ([%d], [%m]). *)
Definition two_digits (n : Z) : str :=
  [digit_char (n / 10); digit_char (n mod 10)].

Definition zfill4 (s : str) : str :=
  List.repeat 48%N (4 - List.length s) ++ s.

(** [%Y].  The C library decides the width for years below 1000: glibc
    prints the bare number, others pad it with zeros to four digits.
    [pad_year] says which one the interpreter runs on. *)
Definition year_str (pad_year : bool) (y : Z) : str :=
  if pad_year then zfill4 (str_of_Z y) else str_of_Z y.

(** [self.strftime('%d.%m.%Y')] *)
Definition strftime_dmY (pad_year : bool) (self : datetime) : str :=
  two_digits (day self) ++ lit "." ++
  two_digits (month self) ++ lit "." ++
  year_str pad_year (year self).

(** A well-formed datetime: what the constructor accepts. *)
Definition valid (d : datetime) : bool :=
  match datetime_new (year d) (month d) (day d)
                     (hour d) (minute d) (second d) (microsecond d) with
  | Ok _ => true
  | Raise _ => false
  end.

End Calendar.

Import Calendar.

(* ================================================================== *)
(** ** [datetime.strptime(value, '%d.%m.%Y')]

    [_strptime] turns the format into the regular expression

      [(?P<d>3[0-1]|[1-2]\d|0[1-9]|[1-9]| [1-9])\.(?P<m>1[0-2]|0[1-9]|[1-9])\.(?P<Y>\d\d\d\d)]

    matches it at the start of the data, refuses data left over after the
    match, converts the three groups with [int] and builds the date.  Each
    group is an alternation of sequences of character classes, tried from
    left to right with backtracking; [IGNORECASE] changes nothing for
    digits, dots and spaces. *)

Module Strptime.

Definition cls := char -> bool.

Definition is_char (a : char) : cls := fun c => (c =? a)%N.
Definition between (lo hi : char) : cls :=
  fun c => ((lo <=? c) && (c <=? hi))%N.

Definition DOT : char := 46%N.

(** One alternative: the captured prefix and the rest. *)
Fixpoint match_seq (p : list cls) (s : str) : option (str * str) :=
  match p with
  | [] => Some ([], s)
  | t :: p' =>
      match s with
      | [] => None
      | c :: s' =>
          if t c then
            match match_seq p' s' with
            | Some (cap, rest) => Some (c :: cap, rest)
            | None => None
            end
          else None
      end
  end.

Definition D_ALTS : list (list cls) :=
  [ [is_char 51; between 48 49];
    [between 49 50; isdecimal_char];
    [is_char 48; between 49 57];
    [between 49 57];
    [is_char 32; between 49 57] ]%N.

Definition M_ALTS : list (list cls) :=
  [ [is_char 49; between 48 50];
    [is_char 48; between 49 57];
    [between 49 57] ]%N.

Definition Y_ALTS : list (list cls) :=
  [ [isdecimal_char; isdecimal_char; isdecimal_char; isdecimal_char] ].

(** All the ways a group matches a prefix, in the order the matcher
    tries them. *)
Definition match_group (alts : list (list cls)) (s : str)
  : list (str * str) :=
  flat_map (fun p => match match_seq p s with
                     | Some x => [x]
                     | None => []
                     end) alts.

Definition match_lit (a : char) (s : str) : list str :=
  match s with
  | c :: s' => if (c =? a)%N then [s'] else []
  | [] => []
  end.

(** All the matches of the whole expression at the start of [s], in
    backtracking order: the groups [d], [m], [Y] and what follows. *)
Definition matches (s : str) : list (str * str * str * str) :=
  flat_map (fun dr =>
    flat_map (fun r2 =>
      flat_map (fun mr =>
        flat_map (fun r4 =>
          List.map (fun yr => (fst dr, fst mr, fst yr, snd yr))
                   (match_group Y_ALTS r4))
          (match_lit DOT (snd mr)))
        (match_group M_ALTS r2))
      (match_lit DOT (snd dr)))
    (match_group D_ALTS s).

(** The text of the two matching errors embeds [repr] of the data; no
    caller of this program looks at it. *)
Definition strptime_dmY (s : str) : result datetime :=
  match matches s with
  | [] => Raise (ValueError (lit "time data does not match format"))
  | (d, m, y, rest) :: _ =>
      match rest with
      | _ :: _ => Raise (ValueError (lit "unconverted data remains: " ++ rest))
      | [] =>
          match int y, int m, int d with
          | Some year, Some month, Some day =>
              _ <- check_date_fields year month day ;;
              datetime_new year month day 0 0 0 0
          | _, _, _ => Raise (ValueError (lit "invalid literal for int()"))
          end
      end
  end.

End Strptime.

Import Strptime.

(* ================================================================== *)
(** ** The fields: [Name], [Phone], [Birthday] *)

Record Name : Type := mkName { name_value : str }.
Record Phone : Type := mkPhone { phone_value : str }.
Record Birthday : Type := mkBirthday { birthday_value : datetime }.

Definition PHONE_ERROR : str := lit "Phone number must be 10 digits.".
Definition BIRTHDAY_ERROR : str := lit "Invalid date format. Use DD.MM.YYYY".

(** [Phone.__init__] *)
Definition Phone_init (value : str) : result Phone :=
  if negb (isdigit value) || negb (len value =? 10)%Z then
    Raise (ValueError PHONE_ERROR)
  else Ok (mkPhone value).

(** [Birthday.__init__]: any [ValueError] of [strptime] is replaced by the
    class's own. *)
Definition Birthday_init (value : str) : result Birthday :=
  match strptime_dmY value with
  | Ok d => Ok (mkBirthday d)
  | Raise (ValueError _) => Raise (ValueError BIRTHDAY_ERROR)
  | Raise e => Raise e
  end.

(* ================================================================== *)
(** ** [Record] *)

Record Record_ : Type := mkRecord {
  name : Name;
  phones : list Phone;
  birthday : option Birthday
}.

(** [Record.__init__] *)
Definition Record_init (n : str) : Record_ := mkRecord (mkName n) [] None.

(** [Record.add_phone]: the phone is built first, so nothing is appended
    when it is refused. *)
Definition Record_add_phone (self : Record_) (phone : str) : result Record_ :=
  p <- Phone_init phone ;;
  Ok (mkRecord (name self) (phones self ++ [p]) (birthday self)).

(** [Record.remove_phone] *)
Definition Record_remove_phone (self : Record_) (phone : str) : Record_ :=
  mkRecord (name self)
           (List.filter (fun p => negb (eqb (phone_value p) phone))
                        (phones self))
           (birthday self).

(** [Record.add_birthday] *)
Definition Record_add_birthday (self : Record_) (b : str) : result Record_ :=
  b' <- Birthday_init b ;;
  Ok (mkRecord (name self) (phones self) (Some b')).

(* ================================================================== *)
(** ** [AddressBook] *)

(** [d.get(k, None)] *)
Fixpoint dict_get {V} (d : list (str * V)) (k : str) : option V :=
  match d with
  | [] => None
  | (k', v) :: d' => if eqb k' k then Some v else dict_get d' k
  end.

(** [d[k] = v]: an existing key keeps its place, a new one goes last. *)
Fixpoint dict_set {V} (d : list (str * V)) (k : str) (v : V)
  : list (str * V) :=
  match d with
  | [] => [(k, v)]
  | (k', v') :: d' =>
      if eqb k' k then (k', v) :: d' else (k', v') :: dict_set d' k v
  end.

Record AddressBook : Type := mkAddressBook {
  records : list (str * Record_)
}.

(** [AddressBook.__init__] *)
Definition AddressBook_init : AddressBook := mkAddressBook [].

(** [AddressBook.add_record] *)
Definition add_record (self : AddressBook) (record : Record_) : AddressBook :=
  mkAddressBook (dict_set (records self) (name_value (name record)) record).

(** [AddressBook.find] *)
Definition find (self : AddressBook) (n : str) : option Record_ :=
  dict_get (records self) n.

(** Replacing the value stored under a key; nothing is stored under a key
    the dictionary does not hold. *)
Fixpoint dict_replace {V} (d : list (str * V)) (k : str) (v : V)
  : list (str * V) :=
  match d with
  | [] => []
  | (k', v') :: d' =>
      if eqb k' k then (k', v) :: d' else (k', v') :: dict_replace d' k v
  end.

(** A record is a mutable object that the book holds by reference, under
    one key.  A method that mutates the record found under [n] is therefore
    seen through the book: the entry under [n] becomes the mutated record.
    A record the book does not hold is not reached through the book, so
    mutating it leaves the book as it is: only [add_record] stores. *)
Definition mutate (self : AddressBook) (n : str) (record : Record_)
  : AddressBook :=
  mkAddressBook (dict_replace (records self) n record).

(** The loop of [AddressBook.get_upcoming_birthdays] over
    [self.records.values()].  The chained comparison evaluates
    [today + timedelta(days=7)] only when [today <= birthday_this_year]. *)
Fixpoint upcoming_loop (pad_year : bool) (today : datetime)
         (values : list Record_) (upcoming_birthdays : list (str * str))
  : result (list (str * str)) :=
  match values with
  | [] => Ok upcoming_birthdays
  | record :: values' =>
      match birthday record with
      | None => upcoming_loop pad_year today values' upcoming_birthdays
      | Some b =>
          birthday_this_year <- replace_year (birthday_value b) (year today) ;;
          if dt_le today birthday_this_year then
            match add_days today 7 with
            | None => Raise OverflowError
            | Some limit =>
                if dt_le birthday_this_year limit then
                  upcoming_loop pad_year today values'
                    (upcoming_birthdays ++
                       [(name_value (name record),
                         strftime_dmY pad_year birthday_this_year)])
                else upcoming_loop pad_year today values' upcoming_birthdays
            end
          else upcoming_loop pad_year today values' upcoming_birthdays
      end
  end.

(** [AddressBook.get_upcoming_birthdays]; [today] is what
    [datetime.today()] returns, a date with its time of day.  An entry
    [{"name": n, "birthday": b}] is the pair [(n, b)]. *)
Definition get_upcoming_birthdays (pad_year : bool) (today : datetime)
           (self : AddressBook) : result (list (str * str)) :=
  upcoming_loop pad_year today (List.map snd (records self)) [].

(* ================================================================== *)
(** ** The command handlers *)

(** A handler returns a string or raises, and leaves a book behind. *)
Definition handler : Type := list str -> AddressBook -> result str * AddressBook.

(** The decorator [input_error]: three kinds of exception become a
    message, every other exception goes through. *)
Definition input_error (func : handler) : handler :=
  fun args book =>
    match func args book with
    | (Raise (ValueError msg), book') => (Ok msg, book')
    | (Raise (IndexError _), book') =>
        (Ok (lit "Insufficient arguments provided."), book')
    | (Raise KeyError, book') => (Ok (lit "Contact not found."), book')
    | r => r
    end.

Definition NEWLINE : str := [10%N].

Definition add_contact_func : handler :=
  fun args book =>
    match args with
    | n :: phone :: _ =>
        let '(record, message, book1) :=
          match find book n with
          | None =>
              let record := Record_init n in
              (record, lit "Contact added.", add_record book record)
          | Some record => (record, lit "Contact updated.", book)
          end in
        if truthy phone then
          match Record_add_phone record phone with
          | Ok record' => (Ok message, mutate book1 n record')
          | Raise e => (Raise e, book1)
          end
        else (Ok message, book1)
    | _ =>
        (Raise (IndexError
                  (lit "Not enough arguments. Usage: add [name] [phone]")),
         book)
    end.

Definition add_contact : handler := input_error add_contact_func.

(** [book.find] returns [None] for an unknown name; calling a method or
    reading an attribute of [None] raises [AttributeError]. *)
Definition change_phone_func : handler :=
  fun args book =>
    match args with
    | n :: old_phone :: new_phone :: _ =>
        match find book n with
        | None => (Raise AttributeError, book)
        | Some record =>
            let record1 := Record_remove_phone record old_phone in
            let book1 := mutate book n record1 in
            match Record_add_phone record1 new_phone with
            | Ok record2 =>
                (Ok (lit "Phone number updated."), mutate book1 n record2)
            | Raise e => (Raise e, book1)
            end
        end
    | _ =>
        (Raise (IndexError
                  (lit "Not enough arguments. Usage: change [name] [old_phone] [new_phone]")),
         book)
    end.

Definition change_phone : handler := input_error change_phone_func.

Definition phones_line (record : Record_) : str :=
  join (lit ", ") (List.map phone_value (phones record)).

Definition show_phones_func : handler :=
  fun args book =>
    match args with
    | n :: _ =>
        match find book n with
        | None => (Raise AttributeError, book)
        | Some record => (Ok (phones_line record), book)
        end
    | _ =>
        (Raise (IndexError (lit "Not enough arguments. Usage: phone [name]")),
         book)
    end.

Definition show_phones : handler := input_error show_phones_func.

Definition show_all_func : handler :=
  fun args book =>
    (Ok (join NEWLINE
              (List.map (fun kv => fst kv ++ lit ": " ++ phones_line (snd kv))
                        (records book))),
     book).

Definition show_all : handler := input_error show_all_func.

Definition add_birthday_func : handler :=
  fun args book =>
    match args with
    | n :: b :: _ =>
        match find book n with
        | None => (Raise AttributeError, book)
        | Some record =>
            match Record_add_birthday record b with
            | Ok record' => (Ok (lit "Birthday added."), mutate book n record')
            | Raise e => (Raise e, book)
            end
        end
    | _ =>
        (Raise (IndexError
                  (lit "Not enough arguments. Usage: add-birthday [name] [birthday]")),
         book)
    end.

Definition add_birthday : handler := input_error add_birthday_func.

(** A [Birthday] object is always true, so [if record.birthday] tests for
    [None] only. *)
Definition show_birthday_func (pad_year : bool) : handler :=
  fun args book =>
    match args with
    | n :: _ =>
        match find book n with
        | None => (Raise AttributeError, book)
        | Some record =>
            match birthday record with
            | Some b => (Ok (strftime_dmY pad_year (birthday_value b)), book)
            | None => (Ok (lit "No birthday set."), book)
            end
        end
    | _ =>
        (Raise (IndexError
                  (lit "Not enough arguments. Usage: show-birthday [name]")),
         book)
    end.

Definition show_birthday (pad_year : bool) : handler :=
  input_error (show_birthday_func pad_year).

Definition birthdays_func (pad_year : bool) (today : datetime) : handler :=
  fun args book =>
    match get_upcoming_birthdays pad_year today book with
    | Raise e => (Raise e, book)
    | Ok upcoming_birthdays =>
        match upcoming_birthdays with
        | [] => (Ok (lit "No upcoming birthdays."), book)
        | _ =>
            (Ok (join NEWLINE
                      (List.map (fun entry => fst entry ++ lit " - " ++ snd entry)
                                upcoming_birthdays)),
             book)
        end
    end.

Definition birthdays (pad_year : bool) (today : datetime) : handler :=
  input_error (birthdays_func pad_year today).

(** The commands of [main] that reach a handler, with the arguments
    [parse_input] split off; [birthdays] reads the clock. *)
Inductive command : Type :=
| Add (args : list str)
| Change (args : list str)
| PhoneCmd (args : list str)
| All (args : list str)
| AddBirthday (args : list str)
| ShowBirthday (args : list str)
| Birthdays (today : datetime) (args : list str).

Definition dispatch (pad_year : bool) (c : command) : AddressBook -> result str * AddressBook :=
  match c with
  | Add args => add_contact args
  | Change args => change_phone args
  | PhoneCmd args => show_phones args
  | All args => show_all args
  | AddBirthday args => add_birthday args
  | ShowBirthday args => show_birthday pad_year args
  | Birthdays today args => birthdays pad_year today args
  end.

(** The book after a sequence of handler invocations.  A handler that
    lets an exception through still leaves its book behind. *)
Fixpoint run (pad_year : bool) (cs : list command) (book : AddressBook)
  : AddressBook :=
  match cs with
  | [] => book
  | c :: cs' => run pad_year cs' (snd (dispatch pad_year c book))
  end.

(* ================================================================== *)
(** ** Vocabulary of the specification *)

(** Exactly ten characters, each one a digit for [str.isdigit]. *)
Definition ten_digits (s : str) : bool :=
  (List.length s =? 10)%nat && forallb isdigit_char s.

(** Exactly ten decimal digits [0]..[9]. *)
Definition ten_decimal_digits (s : str) : bool :=
  (List.length s =? 10)%nat && forallb ascii_digit s.

(** Ten times SUPERSCRIPT TWO (U+00B2). *)
Definition superscript_twos : str := List.repeat 178%N 10.

Definition bob_args : list str := [lit "Bob"; lit "111"; lit "222"].

(** [subsequence l' l]: [l'] is [l] with some elements left out, the others
    in their original order. *)
Inductive subsequence {A : Type} : list A -> list A -> Prop :=
| subseq_nil : subsequence [] []
| subseq_keep x l' l : subsequence l' l -> subsequence (x :: l') (x :: l)
| subseq_drop x l' l : subsequence l' l -> subsequence l' (x :: l).

Definition Phone_eq_dec (p q : Phone) : {p = q} + {p <> q}.
Proof.
  destruct p as [a], q as [b].
  destruct (list_eq_dec N.eq_dec a b) as [E|E].
  - left. now rewrite E.
  - right. intros H. apply E. now inversion H.
Defined.

(** The phone-format invariant: every stored phone passed the test of
    [Phone.__init__]. *)
Definition record_ok (r : Record_) : Prop :=
  Forall (fun p => ten_digits (phone_value p) = true) (phones r).

Definition book_ok (book : AddressBook) : Prop :=
  Forall (fun kv => record_ok (snd kv)) (records book).

(** Sample data. *)
Definition alice : str := lit "Alice".
Definition alice_record : Record_ :=
  mkRecord (mkName alice)
           [mkPhone (lit "1111111111"); mkPhone (lit "2222222222");
            mkPhone (lit "1111111111")]
           None.
Definition alice_book : AddressBook := mkAddressBook [(alice, alice_record)].

(** The year on four digits, zero-padded. *)
Definition four_digits (y : Z) : str :=
  [digit_char (y / 1000); digit_char ((y / 100) mod 10);
   digit_char ((y / 10) mod 10); digit_char (y mod 10)]%Z.

(** A date written DD.MM.YYYY. *)
Definition format_DD_MM_YYYY (d : datetime) : str :=
  two_digits (day d) ++ lit "." ++ two_digits (month d) ++ lit "."
  ++ four_digits (year d).

(** [year_str] and [four_digits] agree on every year from [lo] to [hi]. *)
Definition years_agree (pad_year : bool) (lo hi : Z) : bool :=
  forallb (fun k => eqb (year_str pad_year (Z.of_nat k))
                        (four_digits (Z.of_nat k)))
          (seq (Z.to_nat lo) (Z.to_nat (hi - lo + 1))).

Definition carl : str := lit "Carl".
Definition carl_book : AddressBook := mkAddressBook [(carl, Record_init carl)].

Definition digit_val (c : char) : Z := Z.of_N (c - 48).

(** The strict reading of DD.MM.YYYY: two decimal digits, a dot, two
    decimal digits, a dot, four decimal digits.  Returns day, month and
    year. *)
Definition dmY_strict (s : str) : option (Z * Z * Z) :=
  match s with
  | [d1; d2; p1; m1; m2; p2; y1; y2; y3; y4] =>
      if forallb ascii_digit [d1; d2; m1; m2; y1; y2; y3; y4]
         && (p1 =? DOT)%N && (p2 =? DOT)%N
      then Some (10 * digit_val d1 + digit_val d2,
                 10 * digit_val m1 + digit_val m2,
                 1000 * digit_val y1 + 100 * digit_val y2
                 + 10 * digit_val y3 + digit_val y4)%Z
      else None
  | _ => None
  end.

(** The Gregorian rule for leap years and the lengths of the months. *)
Definition leap_year (y : Z) : bool :=
  ((y mod 4 =? 0) && negb (y mod 100 =? 0) || (y mod 400 =? 0))%Z.

Definition month_length (y m : Z) : Z :=
  match m with
  | 1 | 3 | 5 | 7 | 8 | 10 | 12 => 31
  | 4 | 6 | 9 | 11 => 30
  | 2 => if leap_year y then 29 else 28
  | _ => 0
  end%Z.

(** Day [d] of month [m] of year [y] exists in the calendar. *)
Definition real_date (d m y : Z) : bool :=
  ((1 <=? d) && (d <=? month_length y m))%Z.

(** What [%d], [%m] and [%Y] accept: a day on one digit, on two, or a
    space and one digit; a month on one or two digits; a year on four
    decimal characters. *)
Definition day_token (ds : str) : bool :=
  match ds with
  | [c] => between 49 57 c
  | [c1; c2] =>
      (is_char 51 c1 && between 48 49 c2)
      || (between 49 50 c1 && isdecimal_char c2)
      || (is_char 48 c1 && between 49 57 c2)
      || (is_char 32 c1 && between 49 57 c2)
  | _ => false
  end%N.

Definition month_token (ms : str) : bool :=
  match ms with
  | [c] => between 49 57 c
  | [c1; c2] =>
      (is_char 49 c1 && between 48 50 c2)
      || (is_char 48 c1 && between 49 57 c2)
  | _ => false
  end%N.

Definition year_token (ys : str) : bool :=
  (List.length ys =? 4)%nat && forallb isdecimal_char ys.

(** The upcoming birthdays as the specification words them: for every
    record with a birthday, in insertion order, the birthday's month and
    day in the reference year, kept when that date exists and falls on the
    reference date, on one of the seven days after it, or in between;
    the time of day of the reference plays no part. *)
Definition upcoming_birthdays_spec (reference : datetime) (book : AddressBook)
  : list (str * str) :=
  flat_map
    (fun kv =>
       match birthday (snd kv) with
       | None => []
       | Some b =>
           let y := year reference in
           let m := month (birthday_value b) in
           let d := day (birthday_value b) in
           if real_date d m y
              && (toordinal reference <=? ymd2ord y m d)%Z
              && (ymd2ord y m d <=? toordinal reference + 7)%Z
           then [(name_value (name (snd kv)),
                  format_DD_MM_YYYY (mkdatetime y m d 0 0 0 0))]
           else []
       end)
    (records book).

(** What one record contributes to the loop of [get_upcoming_birthdays]
    when nothing raises. *)
Definition upcoming_entry (pad_year : bool) (today limit : datetime)
           (record : Record_) : list (str * str) :=
  match birthday record with
  | None => []
  | Some b =>
      match replace_year (birthday_value b) (year today) with
      | Ok birthday_this_year =>
          if dt_le today birthday_this_year && dt_le birthday_this_year limit
          then [(name_value (name record),
                 strftime_dmY pad_year birthday_this_year)]
          else []
      | Raise _ => []
      end
  end.

(** No birthday of the book falls on a day the year of [today] lacks. *)
Definition replaceable (today : datetime) (values : list Record_) : Prop :=
  forall record b,
    In record values -> birthday record = Some b ->
    exists d, replace_year (birthday_value b) (year today) = Ok d.

Definition with_birthday (n : str) (d m y : Z) : str * Record_ :=
  (n, mkRecord (mkName n) [] (Some (mkBirthday (mkdatetime y m d 0 0 0 0)))).

Definition ann_book : AddressBook :=
  mkAddressBook [with_birthday (lit "Ann") 10 6 1990].

Definition eve_book : AddressBook :=
  mkAddressBook [with_birthday (lit "Eve") 29 2 2024].

Definition dan_book : AddressBook :=
  mkAddressBook [with_birthday (lit "Dan") 12 6 1990].

Definition afternoon (d m y : Z) : datetime := mkdatetime y m d 14 0 0 0.

(* ================================================================== *)
(** ** [parse_input] and [main] *)

(** Code points for which [str.isspace] holds (Unicode 14.0.0); [strip]
    and [split] without argument use the same test. *)
Definition SPACE_RANGES : list (N * N) :=
  [ (9, 13); (28, 32); (133, 133); (160, 160); (5760, 5760); (8192, 8202);
    (8232, 8233); (8239, 8239); (8287, 8287); (12288, 12288) ]%N.

Definition isspace_char (c : char) : bool := in_ranges SPACE_RANGES c.

(** [s.lstrip()], [s.rstrip()], [s.strip()] *)
Fixpoint lstrip (s : str) : str :=
  match s with
  | [] => []
  | c :: s' => if isspace_char c then lstrip s' else s
  end.

Definition rstrip (s : str) : str := rev (lstrip (rev s)).

Definition strip (s : str) : str := rstrip (lstrip s).

(** The word collected so far, if there is one. *)
Definition flush (cur : str) : list str :=
  match cur with
  | [] => []
  | _ => [cur]
  end.

(** [s.split()] scans from the left: whitespace ends the current word,
    any other character extends it. *)
Fixpoint split_from (cur : str) (s : str) : list str :=
  match s with
  | [] => flush cur
  | c :: s' =>
      if isspace_char c then flush cur ++ split_from [] s'
      else split_from (cur ++ [c]) s'
  end.

Definition split (s : str) : list str := split_from [] s.

(** What [main] writes and how it ends.  [input(prompt)] writes the prompt
    and raises [EOFError] when the input is exhausted; a handler that lets
    an exception through ends the program. *)
Inductive event : Type :=
| Prompted (s : str)
| Printed (s : str).

Inductive outcome : Type :=
| Exited
| EndOfInput
| Crashed (e : exn).

Definition PROMPT : str := lit "Enter a command: ".

Section Main.

(** [str.lower], which the Unicode database defines, is left open. *)
Variable lower : str -> str.
Variable pad_year : bool.

Definition parse_input (user_input : str) : str * list str :=
  let parts := split (strip user_input) in
  let command := match parts with
                 | p :: _ => lower p
                 | [] => []
                 end in
  let args := if (1 <? List.length parts)%nat then tl parts else [] in
  (command, args).

(** The branch of [main] a command word selects; [None] for the words
    that do not reach a handler. *)
Definition handler_of (command : str) (today : datetime) : option handler :=
  if eqb command (lit "add") then Some add_contact
  else if eqb command (lit "change") then Some change_phone
  else if eqb command (lit "phone") then Some show_phones
  else if eqb command (lit "all") then Some show_all
  else if eqb command (lit "add-birthday") then Some add_birthday
  else if eqb command (lit "show-birthday") then Some (show_birthday pad_year)
  else if eqb command (lit "birthdays") then Some (birthdays pad_year today)
  else None.

(** The loop of [main].  Each input line comes with what
    [datetime.today()] returns while its command runs. *)
Fixpoint main_loop (inputs : list (str * datetime)) (book : AddressBook)
  : list event * outcome * AddressBook :=
  match inputs with
  | [] => ([Prompted PROMPT], EndOfInput, book)
  | (user_input, today) :: inputs' =>
      let '(command, args) := parse_input user_input in
      if eqb command (lit "close") || eqb command (lit "exit") then
        ([Prompted PROMPT; Printed (lit "Good bye!")], Exited, book)
      else if eqb command (lit "hello") then
        let '(events, o, book') := main_loop inputs' book in
        (Prompted PROMPT :: Printed (lit "How can I help you?") :: events,
         o, book')
      else
        match handler_of command today with
        | Some h =>
            match h args book with
            | (Ok s, book1) =>
                let '(events, o, book') := main_loop inputs' book1 in
                (Prompted PROMPT :: Printed s :: events, o, book')
            | (Raise e, book1) => ([Prompted PROMPT], Crashed e, book1)
            end
        | None =>
            let '(events, o, book') := main_loop inputs' book in
            (Prompted PROMPT :: Printed (lit "Invalid command.") :: events,
             o, book')
        end
  end.

Definition main (inputs : list (str * datetime))
  : list event * outcome * AddressBook :=
  let '(events, o, book) := main_loop inputs AddressBook_init in
  (Printed (lit "Welcome to the assistant bot!") :: events, o, book).

End Main.

(** [str.lower] on ASCII strings. *)
Definition ascii_lower (s : str) : str :=
  List.map (fun c => if ((65 <=? c) && (c <=? 90))%N then (c + 32)%N else c) s.

(* ================================================================== *)
(** ** More vocabulary *)

Definition keys (book : AddressBook) : list str := List.map fst (records book).

(** Every record is stored under its own name. *)
Definition names_ok (book : AddressBook) : Prop :=
  Forall (fun kv => name_value (name (snd kv)) = fst kv) (records book).

(** A checked date at midnight, what [strptime] builds. *)
Definition midnight_date (d : datetime) : Prop :=
  check_date_fields (year d) (month d) (day d) = Ok tt /\
  hour d = 0%Z /\ minute d = 0%Z /\ second d = 0%Z /\ microsecond d = 0%Z.

Definition birthdays_ok (book : AddressBook) : Prop :=
  Forall (fun kv => forall b, birthday (snd kv) = Some b ->
                              midnight_date (birthday_value b))
         (records book).

(** A birthday on 29 February. *)
Definition leap_day_birthday (record : Record_) : bool :=
  match birthday record with
  | Some b => ((month (birthday_value b) =? 2)
               && (day (birthday_value b) =? 29))%Z
  | None => false
  end.

(** A well-formed time of day. *)
Definition time_ok (d : datetime) : Prop :=
  check_time_fields (hour d) (minute d) (second d) (microsecond d) = Ok tt.

(** [a] is not later in the year than [b]. *)
Definition month_day_le (a b : datetime) : Prop :=
  (month a < month b \/ (month a = month b /\ day a <= day b))%Z.

Definition no_space (s : str) : Prop :=
  s <> [] /\ Forall (fun c => isspace_char c = false) s.

Definition bob_book : AddressBook :=
  mkAddressBook
    [(lit "Bob",
      mkRecord (mkName (lit "Bob")) [mkPhone (lit "1234567890")] None)].


(* ================================================================== *)
(** ** Messages and small helpers of the further properties *)

Definition INSUFFICIENT : str := lit "Insufficient arguments provided.".

Definition LEAP_DAY_ERROR : str := lit "day is out of range for month".

Definition SPACE : str := lit " ".

Definition is_printed (e : event) : bool :=
  match e with
  | Printed _ => true
  | Prompted _ => false
  end.

Definition events_of (r : list event * outcome * AddressBook) : list event :=
  fst (fst r).

Definition outcome_of (r : list event * outcome * AddressBook) : outcome :=
  snd (fst r).

Definition book_of (r : list event * outcome * AddressBook) : AddressBook :=
  snd r.

Definition WELCOME : str := lit "Welcome to the assistant bot!".

(** What the loop writes for lines it answers: for each message, the
    prompt and then the message. *)
Definition answered (msgs : list str) : list event :=
  flat_map (fun m => [Prompted PROMPT; Printed m]) msgs.

(* ================================================================== *)
(** * Properties *)

(** ** Strings and dictionaries *)

Lemma eqb_refl (a : str) : eqb a a = true.
Proof. unfold eqb. destruct (list_eq_dec N.eq_dec a a); congruence. Qed.

Lemma eqb_eq (a b : str) : eqb a b = true <-> a = b.
Proof.
  unfold eqb. destruct (list_eq_dec N.eq_dec a b); split; congruence.
Qed.

Lemma eqb_neq (a b : str) : eqb a b = false <-> a <> b.
Proof.
  unfold eqb. destruct (list_eq_dec N.eq_dec a b); split; congruence.
Qed.

Section Dict.

Variable V : Type.
Implicit Types (d : list (str * V)) (k : str) (v : V).

Lemma dict_get_set_same d k v : dict_get (dict_set d k v) k = Some v.
Proof.
  induction d as [|[k' v'] d IH]; simpl.
  - now rewrite eqb_refl.
  - destruct (eqb k' k) eqn:E; simpl; rewrite E; auto.
Qed.

Lemma dict_get_set_other d k k' v :
  k <> k' -> dict_get (dict_set d k v) k' = dict_get d k'.
Proof.
  intros Hne. induction d as [|[k0 v0] d IH]; simpl.
  - apply eqb_neq in Hne. now rewrite Hne.
  - destruct (eqb k0 k) eqn:E; simpl.
    + apply eqb_eq in E. subst k0. apply eqb_neq in Hne. now rewrite Hne.
    + now rewrite IH.
Qed.

(** A new key goes to the end. *)
Lemma dict_set_fresh d k v :
  dict_get d k = None -> dict_set d k v = d ++ [(k, v)].
Proof.
  induction d as [|[k' v'] d IH]; simpl; intros H; auto.
  destruct (eqb k' k); [discriminate|]. now rewrite IH.
Qed.

(** Assigning twice to a key keeps the second value. *)
Lemma dict_set_set d k v v' :
  dict_set (dict_set d k v) k v' = dict_set d k v'.
Proof.
  induction d as [|[k0 v0] d IH]; simpl.
  - now rewrite eqb_refl.
  - destruct (eqb k0 k) eqn:E; simpl; rewrite E; auto. now rewrite IH.
Qed.

(** Assigning keeps the keys of the other entries and their order. *)
Lemma dict_set_keys d k v :
  dict_get d k <> None -> List.map fst (dict_set d k v) = List.map fst d.
Proof.
  induction d as [|[k0 v0] d IH]; simpl; intros H; [congruence|].
  destruct (eqb k0 k); simpl; auto. now rewrite IH.
Qed.

(** Every value of the dictionary after an assignment is the new value
    or was there before. *)
Lemma dict_set_values (P : V -> Prop) d k v :
  Forall (fun kv => P (snd kv)) d -> P v ->
  Forall (fun kv => P (snd kv)) (dict_set d k v).
Proof.
  intros Hd Hv. induction d as [|[k0 v0] d IH]; simpl.
  - auto.
  - inversion Hd; subst. destruct (eqb k0 k); constructor; auto.
Qed.

Lemma dict_get_values (P : V -> Prop) d k v :
  Forall (fun kv => P (snd kv)) d -> dict_get d k = Some v -> P v.
Proof.
  induction d as [|[k0 v0] d IH]; simpl; intros Hd H; [discriminate|].
  inversion Hd; subst. destruct (eqb k0 k); [|auto].
  now inversion H; subst.
Qed.

Lemma dict_get_replace_same d k v :
  dict_get d k <> None -> dict_get (dict_replace d k v) k = Some v.
Proof.
  induction d as [|[k' v'] d IH]; simpl; intros H; [congruence|].
  destruct (eqb k' k) eqn:E; simpl; rewrite E; auto.
Qed.

Lemma dict_get_replace_other d k k' v :
  k <> k' -> dict_get (dict_replace d k v) k' = dict_get d k'.
Proof.
  intros Hne. induction d as [|[k0 v0] d IH]; simpl; [reflexivity|].
  destruct (eqb k0 k) eqn:E; simpl.
  - apply eqb_eq in E. subst k0. apply eqb_neq in Hne. now rewrite Hne.
  - now rewrite IH.
Qed.

(** Nothing is stored under a key that is not there. *)
Lemma dict_replace_absent d k v : dict_get d k = None -> dict_replace d k v = d.
Proof.
  induction d as [|[k' v'] d IH]; simpl; intros H; [reflexivity|].
  destruct (eqb k' k); [discriminate|]. now rewrite IH.
Qed.

Lemma dict_replace_replace d k v v' :
  dict_replace (dict_replace d k v) k v' = dict_replace d k v'.
Proof.
  induction d as [|[k0 v0] d IH]; simpl; [reflexivity|].
  destruct (eqb k0 k) eqn:E; simpl; rewrite E; auto. now rewrite IH.
Qed.

(** Replacing what has just been assigned is assigning the new value. *)
Lemma dict_replace_set d k v v' :
  dict_replace (dict_set d k v) k v' = dict_set d k v'.
Proof.
  induction d as [|[k0 v0] d IH]; simpl.
  - now rewrite eqb_refl.
  - destruct (eqb k0 k) eqn:E; simpl; rewrite E; auto. now rewrite IH.
Qed.

Lemma dict_replace_keys d k v :
  List.map fst (dict_replace d k v) = List.map fst d.
Proof.
  induction d as [|[k0 v0] d IH]; simpl; [reflexivity|].
  destruct (eqb k0 k); simpl; auto. now rewrite IH.
Qed.

Lemma dict_replace_values (P : V -> Prop) d k v :
  Forall (fun kv => P (snd kv)) d -> P v ->
  Forall (fun kv => P (snd kv)) (dict_replace d k v).
Proof.
  intros Hd Hv. induction d as [|[k0 v0] d IH]; simpl.
  - constructor.
  - inversion Hd; subst. destruct (eqb k0 k); constructor; auto.
Qed.

End Dict.

Lemma find_mutate_same book n r :
  find book n <> None -> find (mutate book n r) n = Some r.
Proof. apply dict_get_replace_same. Qed.

Lemma find_mutate_other book n n' r :
  n <> n' -> find (mutate book n r) n' = find book n'.
Proof. apply dict_get_replace_other. Qed.

Lemma mutate_mutate book n r r' :
  mutate (mutate book n r) n r' = mutate book n r'.
Proof. unfold mutate; simpl. now rewrite dict_replace_replace. Qed.

(** Mutating a record the book does not hold leaves the book as it is. *)
Lemma mutate_absent book n r : find book n = None -> mutate book n r = book.
Proof.
  intros H. unfold mutate. rewrite dict_replace_absent by exact H.
  now destruct book.
Qed.

Lemma find_found book n (r : Record_) : find book n = Some r -> find book n <> None.
Proof. congruence. Qed.

(* ------------------------------------------------------------------ *)
(** ** Handlers and unknown names *)

(** The wrapper has no case for [AttributeError]. *)
Lemma input_error_AttributeError (func : handler) args book book' :
  func args book = (Raise AttributeError, book') ->
  input_error func args book = (Raise AttributeError, book').
Proof. unfold input_error. now intros ->. Qed.

(** C1.  The claim says that [change], [phone], [add-birthday] and
    [show-birthday] answer "Contact not found." for a name that [find] does
    not know, and let no exception out.  The code does not: [find] returns
    [None] instead of raising [KeyError], the handler then uses [None] as a
    record, and the [AttributeError] this raises is not one of the three
    exceptions the wrapper catches.  For every book and every name absent
    from it, each of the four handlers lets [AttributeError] through and
    leaves the book as it was. *)
Theorem unknown_name_raises_AttributeError :
  forall pad_year book n old_phone new_phone b rest,
    find book n = None ->
    change_phone (n :: old_phone :: new_phone :: rest) book
      = (Raise AttributeError, book) /\
    show_phones (n :: rest) book = (Raise AttributeError, book) /\
    add_birthday (n :: b :: rest) book = (Raise AttributeError, book) /\
    show_birthday pad_year (n :: rest) book = (Raise AttributeError, book).
Proof.
  intros pad_year book n old_phone new_phone b rest Hfind.
  repeat split; apply input_error_AttributeError; cbn; now rewrite Hfind.
Qed.

Lemma unknown_name_raises_AttributeError_witness :
  find AddressBook_init (lit "Bob") = None /\
  change_phone bob_args AddressBook_init = (Raise AttributeError, AddressBook_init) /\
  fst (change_phone bob_args AddressBook_init) <> Ok (lit "Contact not found.").
Proof.
  split; [reflexivity|].
  destruct (unknown_name_raises_AttributeError
              true AddressBook_init (lit "Bob") (lit "111") (lit "222")
              (lit "01.01.2000") [] eq_refl) as [H _].
  split; [exact H|].
  unfold bob_args. rewrite H. simpl. discriminate.
Defined.

(* ------------------------------------------------------------------ *)
(** ** Phone numbers *)

Lemma ascii_digit_isdecimal c : ascii_digit c = true -> isdecimal_char c = true.
Proof.
  intros H. unfold isdecimal_char, in_ranges.
  apply existsb_exists. exists (48, 57)%N. split; [now left | exact H].
Qed.

Lemma ascii_digit_isdigit c : ascii_digit c = true -> isdigit_char c = true.
Proof.
  intros H. unfold isdigit_char. now rewrite (ascii_digit_isdecimal _ H).
Qed.

Lemma ten_decimal_digits_ten_digits s :
  ten_decimal_digits s = true -> ten_digits s = true.
Proof.
  unfold ten_decimal_digits, ten_digits.
  intros H. apply andb_true_iff in H as [Hl Hd]. rewrite Hl. simpl.
  rewrite forallb_forall in *. intros c Hc. apply ascii_digit_isdigit; auto.
Qed.

(** The test of [Phone.__init__] is [ten_digits]. *)
Lemma Phone_init_test s :
  negb (isdigit s) || negb (len s =? 10)%Z = negb (ten_digits s).
Proof.
  unfold ten_digits, len, isdigit.
  destruct s as [|c s]; [reflexivity|].
  replace (Z.of_nat (List.length (c :: s)) =? 10)%Z
    with (List.length (c :: s) =? 10)%nat.
  - destruct (forallb isdigit_char (c :: s)), (List.length (c :: s) =? 10)%nat;
      reflexivity.
  - destruct (Nat.eqb_spec (List.length (c :: s)) 10) as [E|E].
    + rewrite E. reflexivity.
    + symmetry. apply Z.eqb_neq. lia.
Qed.

Lemma Phone_init_eq s :
  Phone_init s =
  if ten_digits s then Ok (mkPhone s) else Raise (ValueError PHONE_ERROR).
Proof.
  unfold Phone_init. rewrite Phone_init_test. now destruct (ten_digits s).
Qed.

(** C3, as the code has it.  [Phone.__init__] raises, and then the
    [ValueError] "Phone number must be 10 digits.", exactly when the string
    is not made of ten characters that [str.isdigit] accepts; otherwise it
    stores the string unchanged.  Every string of ten decimal digits
    [0]..[9] is accepted. *)
Theorem Phone_init_accepts_exactly_ten_isdigit :
  forall s,
    ((exists e, Phone_init s = Raise e) <-> ten_digits s = false) /\
    (ten_digits s = false -> Phone_init s = Raise (ValueError PHONE_ERROR)) /\
    (ten_digits s = true -> Phone_init s = Ok (mkPhone s)) /\
    (ten_decimal_digits s = true -> Phone_init s = Ok (mkPhone s)).
Proof.
  intros s. rewrite Phone_init_eq.
  repeat split.
  - intros [e He]. destruct (ten_digits s); [discriminate|reflexivity].
  - intros ->. eauto.
  - now intros ->.
  - now intros ->.
  - intros H. now rewrite (ten_decimal_digits_ten_digits _ H).
Qed.

Lemma Phone_init_accepts_exactly_ten_isdigit_witness :
  ten_decimal_digits (lit "1234567890") = true /\
  Phone_init (lit "1234567890") = Ok (mkPhone (lit "1234567890")) /\
  ten_digits (lit "12345") = false /\
  Phone_init (lit "12345") = Raise (ValueError PHONE_ERROR).
Proof.
  split; [reflexivity|]. split.
  - apply (Phone_init_accepts_exactly_ten_isdigit (lit "1234567890")).
    reflexivity.
  - split; [reflexivity|].
    apply (Phone_init_accepts_exactly_ten_isdigit (lit "12345")).
    reflexivity.
Defined.

(** C3, as the claim states it, fails: ten superscript twos are not ten
    decimal digits, and [str.isdigit] accepts them, so the phone is
    built. *)
Lemma Phone_init_superscripts_accepted :
  ten_decimal_digits superscript_twos = false /\
  Phone_init superscript_twos = Ok (mkPhone superscript_twos) /\
  ~ ((exists e, Phone_init superscript_twos = Raise e)
     <-> ten_decimal_digits superscript_twos = false).
Proof.
  split; [reflexivity|]. split; [reflexivity|].
  intros [_ H]. destruct (H eq_refl) as [e He]. discriminate He.
Qed.

(* ------------------------------------------------------------------ *)
(** ** Removing a phone *)

Lemma filter_subsequence {A} (f : A -> bool) (l : list A) :
  subsequence (List.filter f l) l.
Proof.
  induction l as [|x l IH]; simpl; [constructor|].
  destruct (f x); now constructor.
Qed.

Lemma filter_all_true {A} (f : A -> bool) (l : list A) :
  (forall x, In x l -> f x = true) -> List.filter f l = l.
Proof.
  induction l as [|x l IH]; simpl; intros H; [reflexivity|].
  rewrite (H x (or_introl eq_refl)). f_equal. apply IH. auto.
Qed.

Lemma count_occ_filter_kept {A} (dec : forall a b : A, {a = b} + {a <> b})
      (f : A -> bool) (l : list A) (x : A) :
  f x = true -> count_occ dec (List.filter f l) x = count_occ dec l x.
Proof.
  intros Hx. induction l as [|y l IH]; simpl; [reflexivity|].
  destruct (dec y x) as [E|E].
  - subst y. rewrite Hx. simpl. destruct (dec x x); congruence.
  - destruct (f y); simpl; [destruct (dec y x); congruence | exact IH].
Qed.

Lemma Record_remove_phone_filter_In (self : Record_) (v : str) (p : Phone) :
  In p (phones (Record_remove_phone self v)) ->
  In p (phones self) /\ phone_value p <> v.
Proof.
  unfold Record_remove_phone. simpl. intros H.
  apply filter_In in H as [Hin H]. split; [exact Hin|].
  now apply negb_true_iff, eqb_neq in H.
Qed.

(** C7.  [remove_phone] is total, so it never raises.  It keeps the name
    and the birthday; the phones it keeps are those whose value differs
    from the argument, each as often as before and in the original order;
    no phone equal to the argument is left; and when no phone equals the
    argument the record is unchanged. *)
Theorem Record_remove_phone_removes_all_equal :
  forall (self : Record_) (v : str),
    let r := Record_remove_phone self v in
    name r = name self /\
    birthday r = birthday self /\
    subsequence (phones r) (phones self) /\
    (forall p, In p (phones r) <-> In p (phones self) /\ phone_value p <> v) /\
    (forall p, phone_value p <> v ->
               count_occ Phone_eq_dec (phones r) p
               = count_occ Phone_eq_dec (phones self) p) /\
    (~ In v (List.map phone_value (phones self)) -> r = self).
Proof.
  intros self v r. subst r. unfold Record_remove_phone. simpl.
  repeat split.
  - apply filter_subsequence.
  - apply filter_In in H. tauto.
  - apply filter_In in H as [_ H]. apply negb_true_iff, eqb_neq in H. exact H.
  - intros [Hin Hne]. apply filter_In. split; [exact Hin|].
    now apply negb_true_iff, eqb_neq.
  - intros p Hne. apply count_occ_filter_kept.
    now apply negb_true_iff, eqb_neq.
  - intros Hnot. destruct self as [nm ps bd]. simpl in *. f_equal.
    apply filter_all_true. intros p Hp.
    apply negb_true_iff, eqb_neq. intros E. apply Hnot.
    rewrite <- E. now apply in_map.
Qed.

Lemma Record_remove_phone_removes_all_equal_witness :
  phones (Record_remove_phone alice_record (lit "1111111111"))
    = [mkPhone (lit "2222222222")] /\
  Record_remove_phone alice_record (lit "3333333333") = alice_record.
Proof.
  split; [reflexivity|].
  apply (Record_remove_phone_removes_all_equal alice_record (lit "3333333333")).
  simpl. intros [H|[H|[H|[]]]]; discriminate H.
Defined.

(* ------------------------------------------------------------------ *)
(** ** Adding and changing phones *)

Lemma ten_digits_truthy p : ten_digits p = true -> truthy p = true.
Proof. destruct p; [discriminate|reflexivity]. Qed.

Lemma Record_add_phone_eq (self : Record_) (p : str) :
  Record_add_phone self p =
  if ten_digits p
  then Ok (mkRecord (name self) (phones self ++ [mkPhone p]) (birthday self))
  else Raise (ValueError PHONE_ERROR).
Proof.
  unfold Record_add_phone. rewrite Phone_init_eq.
  now destruct (ten_digits p).
Qed.

(** The wrapper never touches the book. *)
Lemma input_error_snd (func : handler) args book :
  snd (input_error func args book) = snd (func args book).
Proof.
  unfold input_error. destruct (func args book) as [[s|[m|m| | |]] b];
    reflexivity.
Qed.

Lemma input_error_Ok (func : handler) args book s book' :
  func args book = (Ok s, book') -> input_error func args book = (Ok s, book').
Proof. unfold input_error. now intros ->. Qed.

Lemma input_error_ValueError (func : handler) args book msg book' :
  func args book = (Raise (ValueError msg), book') ->
  input_error func args book = (Ok msg, book').
Proof. unfold input_error. now intros ->. Qed.


Lemma add_contact_existing book n r p rest :
  find book n = Some r -> ten_digits p = true ->
  add_contact (n :: p :: rest) book
  = (Ok (lit "Contact updated."),
     mutate book n (mkRecord (name r) (phones r ++ [mkPhone p]) (birthday r))).
Proof.
  intros Hfind Hp. apply input_error_Ok.
  unfold add_contact_func. rewrite Hfind, (ten_digits_truthy _ Hp).
  now rewrite Record_add_phone_eq, Hp.
Qed.

Lemma find_appended book n r :
  find (mkAddressBook (records book ++ [(n, r)])) n
  = match find book n with Some r' => Some r' | None => Some r end.
Proof.
  unfold find. simpl. induction (records book) as [|[k v] d IH]; simpl.
  - now rewrite eqb_refl.
  - destruct (eqb k n); auto.
Qed.

Lemma show_phones_found book n r rest :
  find book n = Some r -> show_phones (n :: rest) book = (Ok (phones_line r), book).
Proof.
  intros H. apply input_error_Ok. unfold show_phones_func. now rewrite H.
Qed.




(** A refused phone leaves the freshly stored record behind; the empty
    string is not validated at all. *)
Lemma add_contact_new_refused book n p rest :
  find book n = None -> ten_digits p = false ->
  add_contact (n :: p :: rest) book
  = (Ok (if truthy p then PHONE_ERROR else lit "Contact added."),
     mkAddressBook (records book ++ [(n, Record_init n)])).
Proof.
  intros Hfind Hp. unfold add_contact, input_error, add_contact_func.
  rewrite Hfind, Record_add_phone_eq, Hp.
  unfold add_record. simpl. rewrite dict_set_fresh by exact Hfind.
  now destruct (truthy p).
Qed.

Lemma add_contact_existing_refused book n r q rest :
  find book n = Some r -> ten_digits q = false ->
  add_contact (n :: q :: rest) book
  = (Ok (if truthy q then PHONE_ERROR else lit "Contact updated."), book).
Proof.
  intros Hfind Hq. unfold add_contact, input_error, add_contact_func.
  rewrite Hfind, Record_add_phone_eq, Hq. now destruct (truthy q).
Qed.

(** C8, as the code has it.  For a name the book does not know and a
    phone that fails the validation of [Phone] (it is not ten characters
    that [str.isdigit] accepts), [add] answers
    "Phone number must be 10 digits." and yet leaves, after the records
    already there, a record with that name, no phone and no birthday.  The
    empty string, which only a direct call can pass, is not validated: the
    answer is "Contact added." and the same record is left.  A later [add]
    for the same name answers "Contact updated." when its phone passes
    validation, and that phone becomes the only one of the record; when
    its phone fails validation it answers the validation message again
    ("Contact updated." for the empty string) and the book stays as it
    is. *)
Theorem add_contact_refused_phone_keeps_record :
  forall book n p rest,
    find book n = None ->
    ten_digits p = false ->
    let book1 := mkAddressBook (records book ++ [(n, Record_init n)]) in
    add_contact (n :: p :: rest) book
    = (Ok (if truthy p then PHONE_ERROR else lit "Contact added."), book1) /\
    find book1 n = Some (Record_init n) /\
    (forall q rest',
        add_contact (n :: q :: rest') book1
        = if ten_digits q
          then (Ok (lit "Contact updated."),
                mkAddressBook
                  (records book
                   ++ [(n, mkRecord (mkName n) [mkPhone q] None)]))
          else (Ok (if truthy q then PHONE_ERROR else lit "Contact updated."),
                book1)).
Proof.
  intros book n p rest Hfind Hp book1.
  assert (Hf1 : find book1 n = Some (Record_init n)).
  { unfold book1. now rewrite find_appended, Hfind. }
  split; [now apply add_contact_new_refused|]. split; [exact Hf1|].
  intros q rest'. destruct (ten_digits q) eqn:Hq.
  - rewrite (add_contact_existing _ _ _ _ rest' Hf1 Hq).
    f_equal. unfold mutate, book1. simpl.
    rewrite <- (dict_set_fresh _ (records book) n (Record_init n) Hfind).
    rewrite dict_replace_set, dict_set_fresh; auto.
  - exact (add_contact_existing_refused _ _ _ _ rest' Hf1 Hq).
Qed.

Lemma add_contact_refused_phone_keeps_record_witness :
  let book1 := mkAddressBook [(lit "Bob", Record_init (lit "Bob"))] in
  add_contact [lit "Bob"; lit "123"] AddressBook_init = (Ok PHONE_ERROR, book1) /\
  fst (add_contact [lit "Bob"; lit "1234567890"] book1)
  = Ok (lit "Contact updated.").
Proof.
  intros book1.
  destruct (add_contact_refused_phone_keeps_record
              AddressBook_init (lit "Bob") (lit "123") []
              eq_refl eq_refl) as (H1 & _ & H3).
  split; [exact H1|].
  change book1 with
    (mkAddressBook (records AddressBook_init
                    ++ [(lit "Bob", Record_init (lit "Bob"))])).
  now rewrite (H3 (lit "1234567890") []).
Defined.

(** C8, as the claim states it, fails three times.  Ten superscript twos
    are not ten digits [0]..[9], and [add] stores them and answers
    "Contact added.".  After a refused [add], a second [add] for the same
    name with a phone that is refused as well answers the validation
    message, not "Contact updated.".  And for the empty string, which is
    not ten digits either, the handler guards [add_phone] with [if phone],
    validates nothing and answers "Contact added.". *)
Lemma add_contact_refusal_counterexamples :
  (find AddressBook_init (lit "Bob") = None /\
   ten_decimal_digits superscript_twos = false /\
   add_contact [lit "Bob"; superscript_twos] AddressBook_init
   = (Ok (lit "Contact added."),
      mkAddressBook
        [(lit "Bob",
          mkRecord (mkName (lit "Bob")) [mkPhone superscript_twos] None)])) /\
  (let book1 := snd (add_contact [lit "Bob"; lit "123"] AddressBook_init) in
   ten_digits (lit "123") = false /\ ten_digits (lit "456") = false /\
   fst (add_contact [lit "Bob"; lit "123"] AddressBook_init) = Ok PHONE_ERROR /\
   add_contact [lit "Bob"; lit "456"] book1 = (Ok PHONE_ERROR, book1) /\
   fst (add_contact [lit "Bob"; lit "456"] book1)
   <> Ok (lit "Contact updated.")) /\
  (ten_digits [] = false /\
   fst (add_contact [lit "Bob"; []] AddressBook_init) = Ok (lit "Contact added.") /\
   fst (add_contact [lit "Bob"; []] AddressBook_init) <> Ok PHONE_ERROR).
Proof.
  repeat split; try reflexivity; vm_compute; discriminate.
Qed.

(** The empty phone alone: nothing is validated. *)
Lemma add_contact_empty_phone_not_refused :
  find AddressBook_init (lit "Bob") = None /\
  ten_digits [] = false /\
  add_contact [lit "Bob"; []] AddressBook_init
  = (Ok (lit "Contact added."),
     mkAddressBook [(lit "Bob", Record_init (lit "Bob"))]) /\
  fst (add_contact [lit "Bob"; []] AddressBook_init) <> Ok PHONE_ERROR.
Proof.
  repeat split. vm_compute. discriminate.
Qed.

Lemma change_phone_found book n r old_phone new_phone rest :
  find book n = Some r ->
  change_phone_func (n :: old_phone :: new_phone :: rest) book
  = match Record_add_phone (Record_remove_phone r old_phone) new_phone with
    | Ok r2 => (Ok (lit "Phone number updated."), mutate book n r2)
    | Raise e => (Raise e, mutate book n (Record_remove_phone r old_phone))
    end.
Proof.
  intros H. unfold change_phone_func. rewrite H.
  destruct (Record_add_phone _ new_phone); [|reflexivity].
  now rewrite mutate_mutate.
Qed.

(** C9.  For a known name and a new phone that fails validation, [change]
    answers "Phone number must be 10 digits." and leaves the record with
    every phone equal to the old one removed and nothing added: the phones
    left are the other phones, in their order.  The other records are as
    before. *)
Theorem change_phone_refused_new_phone_still_removes :
  forall book n r old_phone new_phone rest,
    find book n = Some r ->
    ten_digits new_phone = false ->
    let out := change_phone (n :: old_phone :: new_phone :: rest) book in
    let r' := Record_remove_phone r old_phone in
    fst out = Ok PHONE_ERROR /\
    snd out = mutate book n r' /\
    find (snd out) n = Some r' /\
    ~ In old_phone (List.map phone_value (phones r')) /\
    phones r'
    = List.filter (fun p => negb (eqb (phone_value p) old_phone)) (phones r) /\
    (forall n', n <> n' -> find (snd out) n' = find book n').
Proof.
  intros book n r old_phone new_phone rest Hfind Hnew out r'.
  assert (Hout : out = (Ok PHONE_ERROR, mutate book n r')).
  { unfold out, change_phone. apply input_error_ValueError.
    rewrite (change_phone_found _ _ _ _ _ _ Hfind).
    now rewrite Record_add_phone_eq, Hnew. }
  rewrite Hout. simpl fst. simpl snd.
  repeat split.
  - apply find_mutate_same. congruence.
  - intros Hin. apply in_map_iff in Hin as (p & Hp & Hin).
    apply (Record_remove_phone_filter_In r old_phone p) in Hin. tauto.
  - intros n' Hne. now apply find_mutate_other.
Qed.

Lemma change_phone_refused_new_phone_still_removes_witness :
  let out := change_phone [alice; lit "1111111111"; lit "123"] alice_book in
  fst out = Ok PHONE_ERROR /\
  find (snd out) alice
  = Some (mkRecord (mkName alice) [mkPhone (lit "2222222222")] None).
Proof.
  intros out.
  destruct (change_phone_refused_new_phone_still_removes
              alice_book alice alice_record (lit "1111111111") (lit "123") []
              eq_refl eq_refl) as (H1 & _ & H3 & _).
  split; [exact H1 | exact H3].
Defined.

(** C9, as the claim states it, fails: ten superscript twos are not ten
    digits [0]..[9], yet as the new phone they pass the validation of
    [Phone]; [change] answers "Phone number updated." and stores them in
    place of the old phone. *)
Lemma change_phone_superscripts_accepted :
  let args := [alice; lit "1111111111"; superscript_twos] in
  find alice_book alice = Some alice_record /\
  In (lit "1111111111") (List.map phone_value (phones alice_record)) /\
  ten_decimal_digits superscript_twos = false /\
  fst (change_phone args alice_book) = Ok (lit "Phone number updated.") /\
  fst (change_phone args alice_book) <> Ok PHONE_ERROR /\
  find (snd (change_phone args alice_book)) alice
  = Some (mkRecord (mkName alice)
                   [mkPhone (lit "2222222222"); mkPhone superscript_twos]
                   None).
Proof.
  repeat split; try reflexivity.
  - left. reflexivity.
  - vm_compute. discriminate.
Qed.

(* ------------------------------------------------------------------ *)
(** ** The phone-format invariant *)

Lemma mutate_ok book n r : book_ok book -> record_ok r -> book_ok (mutate book n r).
Proof.
  intros Hb Hr. unfold book_ok, mutate. simpl. now apply dict_replace_values.
Qed.

Lemma add_record_ok book r : book_ok book -> record_ok r -> book_ok (add_record book r).
Proof. intros Hb Hr. unfold book_ok, add_record. simpl. now apply dict_set_values. Qed.

Lemma find_ok book n r : book_ok book -> find book n = Some r -> record_ok r.
Proof. intros Hb. apply (dict_get_values _ record_ok _ _ _ Hb). Qed.

Lemma Record_init_ok n : record_ok (Record_init n).
Proof. constructor. Qed.

Lemma Record_remove_phone_ok r v : record_ok r -> record_ok (Record_remove_phone r v).
Proof.
  unfold record_ok. rewrite !Forall_forall. intros H p Hp.
  apply Record_remove_phone_filter_In in Hp. apply H, Hp.
Qed.

Lemma Record_add_phone_ok r p r' :
  record_ok r -> Record_add_phone r p = Ok r' -> record_ok r'.
Proof.
  intros Hr. rewrite Record_add_phone_eq.
  destruct (ten_digits p) eqn:Hp; [|discriminate].
  intros H. inversion H; subst. unfold record_ok. simpl.
  apply Forall_app. split; [exact Hr|]. now constructor.
Qed.

Lemma Record_add_birthday_ok r b r' :
  record_ok r -> Record_add_birthday r b = Ok r' -> record_ok r'.
Proof.
  intros Hr. unfold Record_add_birthday.
  destruct (Birthday_init b); simpl; [|discriminate].
  intros H. inversion H; subst. exact Hr.
Qed.

Lemma add_contact_func_ok args book :
  book_ok book -> book_ok (snd (add_contact_func args book)).
Proof.
  intros Hb. unfold add_contact_func.
  destruct args as [|n [|phone rest]]; simpl; auto.
  destruct (find book n) as [r|] eqn:Hfind.
  - pose proof (find_ok _ _ _ Hb Hfind) as Hr.
    destruct (truthy phone); simpl; auto.
    destruct (Record_add_phone r phone) as [r'|e] eqn:Hadd; simpl; auto.
    apply mutate_ok; auto. eapply Record_add_phone_ok; eauto.
  - assert (Hb1 : book_ok (add_record book (Record_init n)))
      by (apply add_record_ok; auto using Record_init_ok).
    destruct (truthy phone); simpl; auto.
    destruct (Record_add_phone (Record_init n) phone) as [r'|e] eqn:Hadd;
      simpl; auto.
    apply mutate_ok; auto.
    eapply Record_add_phone_ok; eauto using Record_init_ok.
Qed.

Lemma change_phone_func_ok args book :
  book_ok book -> book_ok (snd (change_phone_func args book)).
Proof.
  intros Hb. unfold change_phone_func.
  destruct args as [|n [|old_phone [|new_phone rest]]]; simpl; auto.
  destruct (find book n) as [r|] eqn:Hfind; simpl; auto.
  pose proof (find_ok _ _ _ Hb Hfind) as Hr.
  pose proof (Record_remove_phone_ok r old_phone Hr) as Hr1.
  destruct (Record_add_phone _ new_phone) as [r'|e] eqn:Hadd; simpl.
  - repeat apply mutate_ok; auto. eapply Record_add_phone_ok; eauto.
  - apply mutate_ok; auto.
Qed.

Lemma add_birthday_func_ok args book :
  book_ok book -> book_ok (snd (add_birthday_func args book)).
Proof.
  intros Hb. unfold add_birthday_func.
  destruct args as [|n [|b rest]]; simpl; auto.
  destruct (find book n) as [r|] eqn:Hfind; simpl; auto.
  destruct (Record_add_birthday r b) as [r'|e] eqn:Hadd; simpl; auto.
  apply mutate_ok; auto.
  eapply Record_add_birthday_ok; eauto using find_ok.
Qed.

Lemma show_phones_func_snd args book : snd (show_phones_func args book) = book.
Proof.
  unfold show_phones_func. destruct args; simpl; auto.
  now destruct (find book s).
Qed.

Lemma show_birthday_func_snd pad_year args book :
  snd (show_birthday_func pad_year args book) = book.
Proof.
  unfold show_birthday_func. destruct args; simpl; auto.
  destruct (find book s) as [r|]; simpl; auto. now destruct (birthday r).
Qed.

Lemma birthdays_func_snd pad_year today args book :
  snd (birthdays_func pad_year today args book) = book.
Proof.
  unfold birthdays_func.
  destruct (get_upcoming_birthdays pad_year today book) as [[|x l]|e];
    reflexivity.
Qed.

(** Every handler preserves the invariant, also when it raises. *)
Lemma dispatch_ok pad_year c book :
  book_ok book -> book_ok (snd (dispatch pad_year c book)).
Proof.
  intros Hb. destruct c;
    cbv [dispatch add_contact change_phone show_phones show_all add_birthday
         show_birthday birthdays];
    rewrite input_error_snd.
  - now apply add_contact_func_ok.
  - now apply change_phone_func_ok.
  - now rewrite show_phones_func_snd.
  - exact Hb.
  - now apply add_birthday_func_ok.
  - now rewrite show_birthday_func_snd.
  - now rewrite birthdays_func_snd.
Qed.

Lemma run_ok pad_year cs : forall book, book_ok book -> book_ok (run pad_year cs book).
Proof.
  induction cs as [|c cs IH]; simpl; intros book Hb; [exact Hb|].
  apply IH. now apply dispatch_ok.
Qed.

(** C10.  After any sequence of handler invocations from the empty book,
    whatever their arguments and whether or not they raise, every phone of
    every record is a string of ten characters, all of them digits for
    [str.isdigit]: the test of [Phone.__init__] holds of every stored
    phone. *)
Theorem stored_phones_are_ten_digits :
  forall pad_year cs n r p,
    In (n, r) (records (run pad_year cs AddressBook_init)) ->
    In p (phones r) ->
    List.length (phone_value p) = 10%nat /\
    Forall (fun c => isdigit_char c = true) (phone_value p) /\
    Phone_init (phone_value p) = Ok p.
Proof.
  intros pad_year cs n r p Hin Hp.
  assert (Hok : book_ok (run pad_year cs AddressBook_init))
    by (apply run_ok; constructor).
  unfold book_ok in Hok. rewrite Forall_forall in Hok.
  specialize (Hok _ Hin). simpl in Hok.
  unfold record_ok in Hok. rewrite Forall_forall in Hok.
  specialize (Hok _ Hp).
  rewrite Phone_init_eq, Hok. destruct p as [v]. simpl in *.
  unfold ten_digits in Hok. apply andb_true_iff in Hok as [Hl Hd].
  split; [now apply Nat.eqb_eq|]. split; [|reflexivity].
  apply Forall_forall. now apply forallb_forall.
Qed.

Lemma stored_phones_are_ten_digits_witness :
  List.length (lit "2222222222") = 10%nat /\
  Forall (fun c => isdigit_char c = true) (lit "2222222222") /\
  Phone_init (lit "2222222222") = Ok (mkPhone (lit "2222222222")).
Proof.
  apply (stored_phones_are_ten_digits
           true
           [Add [alice; lit "1111111111"]; Add [alice; lit "12"];
            Change [alice; lit "1111111111"; lit "2222222222"];
            Change [lit "Bob"; lit "1"; lit "2"]]
           alice
           (mkRecord (mkName alice) [mkPhone (lit "2222222222")] None)
           (mkPhone (lit "2222222222"))).
  - vm_compute. left. reflexivity.
  - left. reflexivity.
Defined.

(** C10, as the claim states it, fails when a digit is one of [0]..[9]:
    after [add Bob] with ten superscript twos, which pass the validation
    of [Phone], the book holds a phone that is not ten decimal digits. *)
Lemma stored_phone_not_decimal :
  let book := run true [Add [lit "Bob"; superscript_twos]] AddressBook_init in
  In (lit "Bob",
      mkRecord (mkName (lit "Bob")) [mkPhone superscript_twos] None)
     (records book) /\
  ten_decimal_digits superscript_twos = false /\
  ~ (forall n r p,
        In (n, r) (records book) -> In p (phones r) ->
        ten_decimal_digits (phone_value p) = true).
Proof.
  assert (Hin : In (lit "Bob",
                    mkRecord (mkName (lit "Bob")) [mkPhone superscript_twos] None)
                   (records (run true [Add [lit "Bob"; superscript_twos]]
                                 AddressBook_init)))
    by (vm_compute; left; reflexivity).
  split; [exact Hin|]. split; [reflexivity|].
  intros H. specialize (H _ _ (mkPhone superscript_twos) Hin (or_introl eq_refl)).
  discriminate H.
Qed.

(* ------------------------------------------------------------------ *)
(** ** Birthdays: storing and showing *)

Lemma check_date_fields_Ok y m d :
  check_date_fields y m d = Ok tt <->
  (1 <= y <= 9999 /\ 1 <= m <= 12 /\ 1 <= d <= days_in_month y m)%Z.
Proof.
  unfold check_date_fields, MINYEAR, MAXYEAR.
  destruct (Z.leb_spec 1 y), (Z.leb_spec y 9999); simpl;
    try (split; [discriminate | lia]).
  destruct (Z.leb_spec 1 m), (Z.leb_spec m 12); simpl;
    try (split; [discriminate | lia]).
  destruct (Z.leb_spec 1 d), (Z.leb_spec d (days_in_month y m)); simpl;
    try (split; [discriminate | lia]).
  split; [lia | reflexivity].
Qed.

Lemma check_date_fields_unit y m d u :
  check_date_fields y m d = Ok u -> check_date_fields y m d = Ok tt.
Proof. now destruct u. Qed.

(** What [strptime] returns is a checked date at midnight. *)
Lemma strptime_dmY_Ok s dt :
  strptime_dmY s = Ok dt ->
  exists ds ms ys rest y m d,
    matches s = (ds, ms, ys, []) :: rest /\
    int ys = Some y /\ int ms = Some m /\ int ds = Some d /\
    check_date_fields y m d = Ok tt /\
    dt = mkdatetime y m d 0 0 0 0.
Proof.
  unfold strptime_dmY.
  destruct (matches s) as [|[[[ds ms] ys] [|c r]] rest]; try discriminate.
  destruct (int ys) as [y|] eqn:Hy; [|discriminate].
  destruct (int ms) as [m|] eqn:Hm; [|discriminate].
  destruct (int ds) as [d|] eqn:Hd; [|discriminate].
  destruct (check_date_fields y m d) as [[]|e] eqn:Hc; [|discriminate].
  unfold datetime_new. rewrite Hc. simpl. intros H. inversion H; subst.
  exists ds, ms, ys, rest, y, m, d. repeat split; auto.
Qed.

Lemma Birthday_init_Ok s b :
  Birthday_init s = Ok b -> strptime_dmY s = Ok (birthday_value b).
Proof.
  unfold Birthday_init.
  destruct (strptime_dmY s) as [d|[ | | | | ]]; try discriminate.
  intros H. now inversion H.
Qed.

Lemma Birthday_init_year s b :
  Birthday_init s = Ok b -> (1 <= year (birthday_value b) <= 9999)%Z.
Proof.
  intros H. apply Birthday_init_Ok, strptime_dmY_Ok in H.
  destruct H as (ds & ms & ys & rest & y & m & d & _ & _ & _ & _ & Hc & ->).
  apply check_date_fields_Ok in Hc. simpl. lia.
Qed.

Lemma years_agree_spec pad_year lo hi y :
  years_agree pad_year lo hi = true ->
  (0 <= lo <= y)%Z -> (y <= hi)%Z ->
  year_str pad_year y = four_digits y.
Proof.
  unfold years_agree. rewrite forallb_forall. intros H Hy Hhi.
  specialize (H (Z.to_nat y)).
  rewrite Z2Nat.id in H by lia. apply eqb_eq, H, in_seq. lia.
Qed.

Lemma years_agree_padded : years_agree true 1 9999 = true.
Proof. vm_compute. reflexivity. Qed.

Lemma years_agree_from_1000 : years_agree false 1000 9999 = true.
Proof. vm_compute. reflexivity. Qed.

(** [%Y] prints four digits when the C library pads or the year has four
    digits anyway. *)
Lemma year_str_four_digits pad_year y :
  (1 <= y <= 9999)%Z -> pad_year = true \/ (1000 <= y)%Z ->
  year_str pad_year y = four_digits y.
Proof.
  intros Hy [->|H1000].
  - apply (years_agree_spec _ _ _ _ years_agree_padded); lia.
  - destruct pad_year.
    + apply (years_agree_spec _ _ _ _ years_agree_padded); lia.
    + apply (years_agree_spec _ _ _ _ years_agree_from_1000); lia.
Qed.

Lemma add_birthday_found book n r s b rest :
  find book n = Some r -> Birthday_init s = Ok b ->
  add_birthday (n :: s :: rest) book
  = (Ok (lit "Birthday added."),
     mutate book n (mkRecord (name r) (phones r) (Some b))).
Proof.
  intros Hfind Hb. apply input_error_Ok.
  unfold add_birthday_func, Record_add_birthday. now rewrite Hfind, Hb.
Qed.

Lemma show_birthday_set pad_year book n r b rest :
  find book n = Some r -> birthday r = Some b ->
  show_birthday pad_year (n :: rest) book
  = (Ok (strftime_dmY pad_year (birthday_value b)), book).
Proof.
  intros Hfind Hb. apply input_error_Ok.
  unfold show_birthday_func. now rewrite Hfind, Hb.
Qed.

(** C6, as the code has it.  For a known name and a birthday string that
    validation accepts, [add-birthday] answers "Birthday added." and
    stores the date in the record; [show-birthday] for the same name then
    answers what [strftime('%d.%m.%Y')] prints for the stored date: the
    day on two digits, the month on two digits and the year.  This is the
    date written DD.MM.YYYY whenever the year is 1000 or later, or the C
    library pads [%Y] with zeros. *)
Theorem add_birthday_then_show_birthday :
  forall pad_year book n r s b rest rest',
    find book n = Some r ->
    Birthday_init s = Ok b ->
    let out := add_birthday (n :: s :: rest) book in
    let shown := fst (show_birthday pad_year (n :: rest') (snd out)) in
    fst out = Ok (lit "Birthday added.") /\
    find (snd out) n = Some (mkRecord (name r) (phones r) (Some b)) /\
    shown = Ok (two_digits (day (birthday_value b)) ++ lit "." ++
                two_digits (month (birthday_value b)) ++ lit "." ++
                year_str pad_year (year (birthday_value b))) /\
    (pad_year = true \/ (1000 <= year (birthday_value b))%Z ->
     shown = Ok (format_DD_MM_YYYY (birthday_value b))).
Proof.
  intros pad_year book n r s b rest rest' Hfind Hb out shown.
  subst shown out. rewrite (add_birthday_found _ _ _ _ _ rest Hfind Hb).
  simpl fst. simpl snd.
  rewrite (show_birthday_set pad_year _ _ (mkRecord (name r) (phones r) (Some b))
             b rest' (find_mutate_same _ _ _ (find_found _ _ _ Hfind)) eq_refl).
  simpl fst. repeat split.
  - apply find_mutate_same. congruence.
  - intros Hy. unfold format_DD_MM_YYYY, strftime_dmY.
    rewrite (year_str_four_digits _ _ (Birthday_init_year _ _ Hb) Hy).
    reflexivity.
Qed.

Lemma add_birthday_then_show_birthday_witness :
  fst (show_birthday false [carl]
         (snd (add_birthday [carl; lit "15.06.1990"] carl_book)))
  = Ok (lit "15.06.1990").
Proof.
  destruct (add_birthday_then_show_birthday
              false carl_book carl (Record_init carl) (lit "15.06.1990")
              (mkBirthday (mkdatetime 1990 6 15 0 0 0 0)) [] []
              eq_refl eq_refl) as (_ & _ & _ & H).
  apply H. right. simpl. lia.
Defined.

(** C6, as the claim states it, fails where the C library does not pad
    [%Y]: the accepted birthday "15.06.0990" is shown as "15.06.990",
    which is not the date written DD.MM.YYYY. *)
Lemma show_birthday_short_year :
  let s := lit "15.06.0990" in
  let b := mkBirthday (mkdatetime 990 6 15 0 0 0 0) in
  find carl_book carl = Some (Record_init carl) /\
  Birthday_init s = Ok b /\
  fst (show_birthday false [carl] (snd (add_birthday [carl; s] carl_book)))
  = Ok (lit "15.06.990") /\
  fst (show_birthday false [carl] (snd (add_birthday [carl; s] carl_book)))
  <> Ok (format_DD_MM_YYYY (birthday_value b)).
Proof.
  repeat split. vm_compute. discriminate.
Qed.

(* ------------------------------------------------------------------ *)
(** ** Birthdays: validation *)

Lemma match_seq_sound p : forall s cap rest,
  match_seq p s = Some (cap, rest) ->
  s = cap ++ rest /\ Forall2 (fun t c => t c = true) p cap.
Proof.
  induction p as [|t p IH]; simpl; intros s cap rest H.
  - inversion H; subst. split; [reflexivity | constructor].
  - destruct s as [|c s]; [discriminate|].
    destruct (t c) eqn:Ht; [|discriminate].
    destruct (match_seq p s) as [[cap' rest']|] eqn:Hm; [|discriminate].
    inversion H; subst. destruct (IH _ _ _ Hm) as [-> HF].
    split; [reflexivity | now constructor].
Qed.

Lemma match_group_In alts s x :
  In x (match_group alts s) ->
  exists p, In p alts /\ match_seq p s = Some x.
Proof.
  unfold match_group. intros H. apply in_flat_map in H as (p & Hp & Hx).
  exists p. split; [exact Hp|].
  destruct (match_seq p s) as [y|]; [|contradiction].
  destruct Hx as [->|[]]. reflexivity.
Qed.

Lemma match_lit_In a s r : In r (match_lit a s) -> s = a :: r.
Proof.
  unfold match_lit. destruct s as [|c s]; [contradiction|].
  destruct (N.eqb_spec c a) as [->|]; [|contradiction].
  now intros [->|[]].
Qed.

(** Every match splits the data into day, dot, month, dot, year and what
    is left, each group matching one of its alternatives. *)
Lemma matches_In s ds ms ys rest :
  In (ds, ms, ys, rest) (matches s) ->
  s = ds ++ [DOT] ++ ms ++ [DOT] ++ ys ++ rest /\
  (exists p, In p D_ALTS /\ Forall2 (fun t c => t c = true) p ds) /\
  (exists p, In p M_ALTS /\ Forall2 (fun t c => t c = true) p ms) /\
  (exists p, In p Y_ALTS /\ Forall2 (fun t c => t c = true) p ys).
Proof.
  unfold matches. intros H.
  apply in_flat_map in H as ([d r1] & Hd & H).
  apply in_flat_map in H as (r2 & Hr2 & H).
  apply in_flat_map in H as ([m r3] & Hm & H).
  apply in_flat_map in H as (r4 & Hr4 & H).
  apply in_map_iff in H as ([y r5] & E & Hy).
  cbn [fst snd] in *. inversion E; subst.
  apply match_group_In in Hd as (pd & Hpd & Hd).
  apply match_group_In in Hm as (pm & Hpm & Hm).
  apply match_group_In in Hy as (py & Hpy & Hy).
  apply match_seq_sound in Hd as [-> Hd].
  apply match_seq_sound in Hm as [-> Hm].
  apply match_seq_sound in Hy as [-> Hy].
  apply match_lit_In in Hr2. apply match_lit_In in Hr4. subst.
  split; [reflexivity|]. eauto 10.
Qed.

Ltac invert_Forall2 :=
  repeat match goal with
         | H : Forall2 _ (_ :: _) _ |- _ => inversion H; subst; clear H
         | H : Forall2 _ [] _ |- _ => inversion H; subst; clear H
         end.

Ltac choose_alternative :=
  repeat match goal with
         | H : In _ (_ :: _) |- _ => destruct H as [<-|H]
         | H : In _ [] |- _ => destruct H
         end.

Lemma D_ALTS_day_token p ds :
  In p D_ALTS -> Forall2 (fun t c => t c = true) p ds -> day_token ds = true.
Proof.
  unfold D_ALTS. intros Hp HF. choose_alternative; invert_Forall2; simpl;
    repeat match goal with H : _ = true |- _ => rewrite H; clear H end;
    auto with bool.
  all: repeat rewrite orb_true_r; reflexivity.
Qed.

Lemma M_ALTS_month_token p ms :
  In p M_ALTS -> Forall2 (fun t c => t c = true) p ms -> month_token ms = true.
Proof.
  unfold M_ALTS. intros Hp HF. choose_alternative; invert_Forall2; simpl;
    repeat match goal with H : _ = true |- _ => rewrite H; clear H end;
    auto with bool.
Qed.

Lemma Y_ALTS_year_token p ys :
  In p Y_ALTS -> Forall2 (fun t c => t c = true) p ys -> year_token ys = true.
Proof.
  unfold Y_ALTS. intros Hp HF. choose_alternative; invert_Forall2.
  unfold year_token. simpl.
  repeat match goal with H : _ = true |- _ => rewrite H; clear H end.
  reflexivity.
Qed.

Lemma is_leap_leap_year y : is_leap y = leap_year y.
Proof.
  unfold is_leap, leap_year.
  destruct (Z.eqb_spec (y mod 4) 0), (Z.eqb_spec (y mod 100) 0),
    (Z.eqb_spec (y mod 400) 0); simpl; try reflexivity;
    exfalso; Z.div_mod_to_equations; lia.
Qed.

Lemma days_in_month_month_length y m :
  (1 <= m <= 12)%Z -> days_in_month y m = month_length y m.
Proof.
  intros Hm. unfold days_in_month, month_length.
  rewrite is_leap_leap_year.
  assert (H : (m = 1 \/ m = 2 \/ m = 3 \/ m = 4 \/ m = 5 \/ m = 6 \/ m = 7
               \/ m = 8 \/ m = 9 \/ m = 10 \/ m = 11 \/ m = 12)%Z) by lia.
  repeat (destruct H as [->|H]); try subst m; simpl;
    try reflexivity; now destruct (leap_year y).
Qed.

Lemma month_length_pos y m : (0 < month_length y m)%Z -> (1 <= m <= 12)%Z.
Proof.
  unfold month_length.
  destruct m as [|p|p]; try lia.
  do 4 (try destruct p as [p|p|]); try lia.
Qed.

(** The date check of the library is the Gregorian rule, for the years
    the library knows. *)
Lemma check_date_fields_real_date y m d :
  check_date_fields y m d = Ok tt <->
  (1 <= y <= 9999)%Z /\ real_date d m y = true.
Proof.
  rewrite check_date_fields_Ok. unfold real_date.
  rewrite andb_true_iff, !Z.leb_le. split.
  - intros (Hy & Hm & Hd). rewrite <- days_in_month_month_length; auto.
  - intros (Hy & H1 & Hd).
    assert (Hm : (1 <= m <= 12)%Z) by (apply (month_length_pos y); lia).
    rewrite days_in_month_month_length; auto.
Qed.

Lemma ascii_digit_cases c :
  ascii_digit c = true ->
  (c = 48 \/ c = 49 \/ c = 50 \/ c = 51 \/ c = 52 \/ c = 53 \/ c = 54
   \/ c = 55 \/ c = 56 \/ c = 57)%N.
Proof.
  unfold ascii_digit. rewrite andb_true_iff, !N.leb_le. lia.
Qed.

Ltac each_digit H :=
  apply ascii_digit_cases in H;
  repeat (destruct H as [->|H]); try subst.

Lemma decimal_value_ascii c :
  ascii_digit c = true -> decimal_value c = Some (c - 48)%N.
Proof. intros H. each_digit H; reflexivity. Qed.

Lemma int_digits_ascii acc c s :
  ascii_digit c = true ->
  int_digits acc (c :: s) = int_digits (10 * acc + digit_val c) s.
Proof. intros H. simpl. now rewrite (decimal_value_ascii _ H). Qed.

Lemma int_ascii c s :
  ascii_digit c = true -> int (c :: s) = int_digits 0 (c :: s).
Proof. intros H. each_digit H; reflexivity. Qed.

Lemma int_two_digits c1 c2 :
  ascii_digit c1 = true -> ascii_digit c2 = true ->
  int [c1; c2] = Some (10 * digit_val c1 + digit_val c2)%Z.
Proof.
  intros H1 H2. rewrite (int_ascii _ _ H1).
  rewrite !int_digits_ascii by assumption. cbn [int_digits]. f_equal; lia.
Qed.

Lemma int_four_digits c1 c2 c3 c4 :
  ascii_digit c1 = true -> ascii_digit c2 = true ->
  ascii_digit c3 = true -> ascii_digit c4 = true ->
  int [c1; c2; c3; c4]
  = Some (1000 * digit_val c1 + 100 * digit_val c2
          + 10 * digit_val c3 + digit_val c4)%Z.
Proof.
  intros H1 H2 H3 H4. rewrite (int_ascii _ _ H1).
  rewrite !int_digits_ascii by assumption. cbn [int_digits]. f_equal; lia.
Qed.

(** A day written on two decimal digits is taken whole by the first
    alternative that matches. *)
Lemma D_ALTS_two_digits c1 c2 rest :
  ascii_digit c1 = true -> ascii_digit c2 = true ->
  (1 <= 10 * digit_val c1 + digit_val c2 <= 31)%Z ->
  exists tl, match_group D_ALTS (c1 :: c2 :: rest) = ([c1; c2], rest) :: tl.
Proof.
  intros H1 H2 Hv. each_digit H1; each_digit H2;
    first [ eexists; vm_compute; reflexivity
          | exfalso; vm_compute in Hv; destruct Hv as [Ha Hb];
            first [now apply Ha | now apply Hb] ].
Qed.

Lemma M_ALTS_two_digits c1 c2 rest :
  ascii_digit c1 = true -> ascii_digit c2 = true ->
  (1 <= 10 * digit_val c1 + digit_val c2 <= 12)%Z ->
  exists tl, match_group M_ALTS (c1 :: c2 :: rest) = ([c1; c2], rest) :: tl.
Proof.
  intros H1 H2 Hv. each_digit H1; each_digit H2;
    first [ eexists; vm_compute; reflexivity
          | exfalso; vm_compute in Hv; destruct Hv as [Ha Hb];
            first [now apply Ha | now apply Hb] ].
Qed.

Lemma Y_ALTS_four_digits c1 c2 c3 c4 rest :
  ascii_digit c1 = true -> ascii_digit c2 = true ->
  ascii_digit c3 = true -> ascii_digit c4 = true ->
  match_group Y_ALTS (c1 :: c2 :: c3 :: c4 :: rest)
  = [([c1; c2; c3; c4], rest)].
Proof.
  intros H1 H2 H3 H4. unfold match_group, Y_ALTS. simpl.
  now rewrite !ascii_digit_isdecimal by assumption.
Qed.

Lemma match_lit_DOT r : match_lit DOT (DOT :: r) = [r].
Proof. reflexivity. Qed.

(** The first match, from the first match of each group. *)
Lemma matches_head s ds r2 tl1 ms r4 tl2 ys r5 tl3 :
  match_group D_ALTS s = (ds, DOT :: r2) :: tl1 ->
  match_group M_ALTS r2 = (ms, DOT :: r4) :: tl2 ->
  match_group Y_ALTS r4 = (ys, r5) :: tl3 ->
  exists tl, matches s = (ds, ms, ys, r5) :: tl.
Proof.
  intros Hd Hm Hy. unfold matches. rewrite Hd.
  cbn [flat_map fst snd]. rewrite match_lit_DOT.
  cbn [flat_map]. rewrite Hm.
  cbn [flat_map fst snd]. rewrite match_lit_DOT.
  cbn [flat_map]. rewrite Hy.
  cbn [List.map fst snd app]. eexists. reflexivity.
Qed.

Lemma digit_val_range c : ascii_digit c = true -> (0 <= digit_val c <= 9)%Z.
Proof.
  unfold ascii_digit, digit_val. rewrite andb_true_iff, !N.leb_le. lia.
Qed.

Lemma month_length_le y m : (month_length y m <= 31)%Z.
Proof.
  unfold month_length.
  destruct m as [|p|p]; try lia.
  do 4 (try destruct p as [p|p|]); try lia.
  destruct (leap_year y); lia.
Qed.

Lemma strptime_dmY_strict s d m y :
  dmY_strict s = Some (d, m, y) ->
  real_date d m y = true -> (1 <= y)%Z ->
  strptime_dmY s = Ok (mkdatetime y m d 0 0 0 0).
Proof.
  intros Hs Hreal Hy.
  destruct s as [|d1 [|d2 [|p1 [|m1 [|m2 [|p2 [|y1 [|y2 [|y3 [|y4 [|x s]]]]]]]]]]];
    try discriminate Hs.
  unfold dmY_strict in Hs.
  destruct (forallb ascii_digit [d1; d2; m1; m2; y1; y2; y3; y4]) eqn:Hdig;
    [|discriminate Hs].
  destruct (N.eqb_spec p1 DOT) as [->|]; [|discriminate Hs].
  destruct (N.eqb_spec p2 DOT) as [->|]; [|discriminate Hs].
  cbn [andb] in Hs.
  assert (Ed : (10 * digit_val d1 + digit_val d2)%Z = d) by congruence.
  assert (Em : (10 * digit_val m1 + digit_val m2)%Z = m) by congruence.
  assert (Ey : (1000 * digit_val y1 + 100 * digit_val y2
                + 10 * digit_val y3 + digit_val y4)%Z = y) by congruence.
  clear Hs.
  simpl in Hdig. rewrite !andb_true_iff in Hdig.
  destruct Hdig as (Hd1 & Hd2 & Hm1 & Hm2 & Hy1 & Hy2 & Hy3 & Hy4 & _).
  assert (Hyr : (1 <= y <= 9999)%Z).
  { pose proof (digit_val_range _ Hy1). pose proof (digit_val_range _ Hy2).
    pose proof (digit_val_range _ Hy3). pose proof (digit_val_range _ Hy4).
    lia. }
  pose proof (proj2 (check_date_fields_real_date y m d) (conj Hyr Hreal)) as Hc.
  pose proof (proj1 (check_date_fields_Ok y m d) Hc) as (_ & Hmr & _).
  assert (Hdr : (1 <= d <= 31)%Z).
  { unfold real_date in Hreal. rewrite andb_true_iff, !Z.leb_le in Hreal.
    pose proof (month_length_le y m). lia. }
  destruct (D_ALTS_two_digits d1 d2 (DOT :: m1 :: m2 :: DOT :: [y1; y2; y3; y4])
              Hd1 Hd2) as [tl1 HD]; [now rewrite Ed|].
  destruct (M_ALTS_two_digits m1 m2 (DOT :: [y1; y2; y3; y4]) Hm1 Hm2)
    as [tl2 HM]; [now rewrite Em|].
  destruct (matches_head _ _ _ _ _ _ _ _ _ _ HD HM
              (Y_ALTS_four_digits y1 y2 y3 y4 [] Hy1 Hy2 Hy3 Hy4)) as [tl Hmt].
  unfold strptime_dmY. rewrite Hmt.
  rewrite int_four_digits, !int_two_digits by assumption.
  rewrite Ed, Em, Ey, Hc. simpl.
  unfold datetime_new. rewrite Hc. reflexivity.
Qed.

Lemma check_date_fields_raises y m d e :
  check_date_fields y m d = Raise e -> exists msg, e = ValueError msg.
Proof.
  unfold check_date_fields.
  repeat match goal with
         | |- context [if ?c then _ else _] => destruct c
         end; intros H; inversion H; eauto.
Qed.

(** [strptime] raises nothing but [ValueError]. *)
Lemma strptime_dmY_raises s e :
  strptime_dmY s = Raise e -> exists msg, e = ValueError msg.
Proof.
  unfold strptime_dmY.
  destruct (matches s) as [|[[[ds ms] ys] [|c r]] rest];
    try (intros H; inversion H; eauto; fail).
  destruct (int ys) as [y|]; [|intros H; inversion H; eauto].
  destruct (int ms) as [m|]; [|intros H; inversion H; eauto].
  destruct (int ds) as [d|]; [|intros H; inversion H; eauto].
  destruct (check_date_fields y m d) as [[]|e'] eqn:Hc.
  - unfold datetime_new. rewrite Hc. simpl. discriminate.
  - simpl. intros H. inversion H; subst. eapply check_date_fields_raises; eauto.
Qed.

Lemma Birthday_init_total s :
  (exists b, Birthday_init s = Ok b)
  \/ Birthday_init s = Raise (ValueError BIRTHDAY_ERROR).
Proof.
  unfold Birthday_init. destruct (strptime_dmY s) as [d|e] eqn:H; [eauto|].
  apply strptime_dmY_raises in H as [msg ->]. now right.
Qed.

(** C4, as the code has it.  [Birthday.__init__] either stores a date or
    raises the [ValueError] "Invalid date format. Use DD.MM.YYYY".  It
    stores a date only for a string made of a day (one digit, two digits,
    or a space and a digit), a dot, a month (one or two digits), a dot and
    a year of four decimal characters that denote a day that exists in the
    calendar, in a year from 1 to 9999.  Every string in the strict form
    DD.MM.YYYY that denotes an existing day of a year from 1 on is
    accepted.  "29.02.2023" is refused and "29.02.2024" accepted. *)
Theorem Birthday_init_accepts_calendar_dates :
  (forall s,
      ((exists b, Birthday_init s = Ok b)
       \/ Birthday_init s = Raise (ValueError BIRTHDAY_ERROR)) /\
      (forall b,
          Birthday_init s = Ok b ->
          exists ds ms ys d m y,
            s = ds ++ [DOT] ++ ms ++ [DOT] ++ ys /\
            day_token ds = true /\ month_token ms = true /\
            year_token ys = true /\
            int ds = Some d /\ int ms = Some m /\ int ys = Some y /\
            (1 <= y <= 9999)%Z /\ real_date d m y = true /\
            b = mkBirthday (mkdatetime y m d 0 0 0 0)) /\
      (forall d m y,
          dmY_strict s = Some (d, m, y) ->
          real_date d m y = true -> (1 <= y)%Z ->
          Birthday_init s = Ok (mkBirthday (mkdatetime y m d 0 0 0 0)))) /\
  Birthday_init (lit "29.02.2023") = Raise (ValueError BIRTHDAY_ERROR) /\
  Birthday_init (lit "29.02.2024")
  = Ok (mkBirthday (mkdatetime 2024 2 29 0 0 0 0)).
Proof.
  split; [|split; reflexivity].
  intros s. split; [apply Birthday_init_total|]. split.
  - intros b Hb. apply Birthday_init_Ok, strptime_dmY_Ok in Hb.
    destruct Hb as (ds & ms & ys & rest & y & m & d & Hm & Hy & Hmo & Hd & Hc & Hb).
    assert (Hin : In (ds, ms, ys, []) (matches s)) by (rewrite Hm; now left).
    apply matches_In in Hin as (Hs & (pd & Hpd & Fd) & (pm & Hpm & Fm) & (py & Hpy & Fy)).
    rewrite app_nil_r in Hs.
    apply check_date_fields_real_date in Hc as [Hyr Hreal].
    exists ds, ms, ys, d, m, y.
    repeat split; try assumption; try lia.
    + eapply D_ALTS_day_token; eauto.
    + eapply M_ALTS_month_token; eauto.
    + eapply Y_ALTS_year_token; eauto.
    + destruct b as [v]. simpl in Hb. now rewrite Hb.
  - intros d m y Hs Hreal Hy. unfold Birthday_init.
    now rewrite (strptime_dmY_strict _ _ _ _ Hs Hreal Hy).
Qed.

Lemma Birthday_init_accepts_calendar_dates_witness :
  dmY_strict (lit "15.06.1990") = Some (15, 6, 1990)%Z /\
  real_date 15 6 1990 = true /\
  Birthday_init (lit "15.06.1990")
  = Ok (mkBirthday (mkdatetime 1990 6 15 0 0 0 0)).
Proof.
  split; [reflexivity|]. split; [reflexivity|].
  destruct Birthday_init_accepts_calendar_dates as [H _].
  destruct (H (lit "15.06.1990")) as (_ & _ & Hstrict).
  apply Hstrict; [reflexivity | reflexivity | lia].
Defined.

(** C4, as the claim states it, fails: "1.6.1990" is not in the form
    DD.MM.YYYY, and [strptime] accepts a day and a month without their
    leading zero. *)
Lemma Birthday_init_short_day_accepted :
  dmY_strict (lit "1.6.1990") = None /\
  Birthday_init (lit "1.6.1990")
  = Ok (mkBirthday (mkdatetime 1990 6 1 0 0 0 0)) /\
  ~ (forall s,
        ~ (exists d m y, dmY_strict s = Some (d, m, y)
                         /\ real_date d m y = true) ->
        exists e, Birthday_init s = Raise e).
Proof.
  split; [reflexivity|]. split; [reflexivity|].
  intros H. destruct (H (lit "1.6.1990")) as [e He].
  - intros (d & m & y & Hs & _). discriminate Hs.
  - discriminate He.
Qed.

(* ------------------------------------------------------------------ *)
(** ** Upcoming birthdays *)

(** When no [replace] raises and [today + 7 days] exists, the loop keeps,
    in the order of the records, the birthdays whose occurrence in the year
    of [today] lies between [today] and [today + 7 days] as datetimes. *)
Lemma upcoming_loop_entries pad_year today limit values :
  add_days today 7 = Some limit ->
  replaceable today values ->
  forall acc,
    upcoming_loop pad_year today values acc
    = Ok (acc ++ flat_map (upcoming_entry pad_year today limit) values).
Proof.
  intros Hlimit. induction values as [|record values IH]; intros Hrep acc.
  - simpl. now rewrite app_nil_r.
  - assert (Hrep' : replaceable today values).
    { intros r b Hin. apply Hrep. now right. }
    cbn [upcoming_loop flat_map]. unfold upcoming_entry at 1.
    destruct (birthday record) as [b|] eqn:Hb.
    + destruct (Hrep record b (or_introl eq_refl) Hb) as [d Hd].
      rewrite Hd. cbn [bind]. rewrite Hlimit.
      destruct (dt_le today d); cbn [andb]; [|now apply IH].
      destruct (dt_le d limit); [|now apply IH].
      rewrite IH by assumption. now rewrite <- app_assoc.
    + now apply IH.
Qed.

Lemma get_upcoming_birthdays_entries pad_year today limit book :
  add_days today 7 = Some limit ->
  replaceable today (List.map snd (records book)) ->
  get_upcoming_birthdays pad_year today book
  = Ok (flat_map (upcoming_entry pad_year today limit)
                 (List.map snd (records book))).
Proof.
  intros Hl Hr. unfold get_upcoming_birthdays.
  now rewrite (upcoming_loop_entries pad_year today limit _ Hl Hr).
Qed.

(** Once the day has begun, midnight of that day is in the past: a
    birthday that falls on the day of [today] is not [>= today]. *)
Lemma dt_le_same_day_false today :
  (0 <= hour today /\ 0 <= minute today /\ 0 <= second today
   /\ 0 <= microsecond today)%Z ->
  (0 < hour today \/ 0 < minute today \/ 0 < second today
   \/ 0 < microsecond today)%Z ->
  dt_le today (mkdatetime (year today) (month today) (day today) 0 0 0 0)
  = false.
Proof.
  destruct today as [y m d hh mm ss us]. simpl.
  intros (Hh & Hm & Hs & Hu) Hpos.
  unfold dt_le, fields. cbn [tuple_cmp year month day hour minute second microsecond].
  rewrite !Z.compare_refl.
  destruct (Z.compare_spec hh 0); [ | lia | reflexivity ].
  destruct (Z.compare_spec mm 0); [ | lia | reflexivity ].
  destruct (Z.compare_spec ss 0); [ | lia | reflexivity ].
  destruct (Z.compare_spec us 0); [ lia | lia | reflexivity ].
Qed.

(** The example of the specification: on 10.06.2024, at any time of the
    day, the birthday 12.06.1990 is listed as "12.06.2024". *)
Lemma get_upcoming_birthdays_example pad_year hh mm ss us :
  get_upcoming_birthdays pad_year (mkdatetime 2024 6 10 hh mm ss us) dan_book
  = Ok [(lit "Dan", lit "12.06.2024")].
Proof. destruct pad_year; reflexivity. Qed.

(** C2.  The claim lists a birthday that falls on the reference date
    itself, and skips a birthday whose day the reference year lacks.  The
    code does neither.  It compares [datetime.today()], which carries the
    time of day, with the birthday at midnight: on 10.06.2024 at 14:00 a
    birthday of 10.06.1990 is not listed, although the lower bound is
    written [today <= ...].  And [replace(year=today.year)] raises for a
    birthday of 29.02.2024 when today is in 2023, so that no list comes
    back at all and [birthdays] answers with the text of that
    [ValueError]. *)
Theorem get_upcoming_birthdays_misses_today :
  forall pad_year,
    (get_upcoming_birthdays pad_year (afternoon 10 6 2024) ann_book = Ok [] /\
     upcoming_birthdays_spec (afternoon 10 6 2024) ann_book
     = [(lit "Ann", lit "10.06.2024")] /\
     fst (birthdays pad_year (afternoon 10 6 2024) [] ann_book)
     = Ok (lit "No upcoming birthdays.")) /\
    (get_upcoming_birthdays pad_year (afternoon 25 2 2023) eve_book
     = Raise (ValueError (lit "day is out of range for month")) /\
     upcoming_birthdays_spec (afternoon 25 2 2023) eve_book = [] /\
     fst (birthdays pad_year (afternoon 25 2 2023) [] eve_book)
     = Ok (lit "day is out of range for month")).
Proof.
  intros pad_year. destruct pad_year; repeat split; reflexivity.
Qed.

(* ------------------------------------------------------------------ *)
(** ** Too few and too many arguments *)

Lemma input_error_IndexError (func : handler) args book msg book' :
  func args book = (Raise (IndexError msg), book') ->
  input_error func args book = (Ok INSUFFICIENT, book').
Proof. unfold input_error. now intros ->. Qed.

(** With fewer arguments than it reads, a handler answers
    "Insufficient arguments provided." and leaves the book alone: [add]
    and [add-birthday] need two, [change] three, [phone] and
    [show-birthday] one. *)
Theorem too_few_arguments :
  forall pad_year args book,
    ((List.length args < 2)%nat ->
     add_contact args book = (Ok INSUFFICIENT, book) /\
     add_birthday args book = (Ok INSUFFICIENT, book)) /\
    ((List.length args < 3)%nat ->
     change_phone args book = (Ok INSUFFICIENT, book)) /\
    ((List.length args < 1)%nat ->
     show_phones args book = (Ok INSUFFICIENT, book) /\
     show_birthday pad_year args book = (Ok INSUFFICIENT, book)).
Proof.
  intros pad_year args book. split; [|split]; intros H.
  - destruct args as [|a [|b rest]]; simpl in H; try lia;
      split; eapply input_error_IndexError; reflexivity.
  - destruct args as [|a [|b [|c rest]]]; simpl in H; try lia;
      eapply input_error_IndexError; reflexivity.
  - destruct args; simpl in H; try lia.
    split; eapply input_error_IndexError; reflexivity.
Qed.

Lemma too_few_arguments_witness :
  add_contact [lit "Bob"] bob_book = (Ok INSUFFICIENT, bob_book) /\
  change_phone [lit "Bob"; lit "1234567890"] bob_book
  = (Ok INSUFFICIENT, bob_book).
Proof.
  destruct (too_few_arguments true [lit "Bob"] bob_book) as (H2 & _ & _).
  destruct (too_few_arguments true [lit "Bob"; lit "1234567890"] bob_book)
    as (_ & H3 & _).
  split.
  - apply H2. simpl. lia.
  - apply H3. simpl. lia.
Defined.

(** Arguments after those a handler reads are ignored. *)
Theorem surplus_arguments_ignored :
  forall pad_year today book n a b rest,
    add_contact (n :: a :: rest) book = add_contact [n; a] book /\
    change_phone (n :: a :: b :: rest) book = change_phone [n; a; b] book /\
    show_phones (n :: rest) book = show_phones [n] book /\
    add_birthday (n :: a :: rest) book = add_birthday [n; a] book /\
    show_birthday pad_year (n :: rest) book = show_birthday pad_year [n] book /\
    show_all rest book = show_all [] book /\
    birthdays pad_year today rest book = birthdays pad_year today [] book.
Proof. intros. repeat split; reflexivity. Qed.

(* ------------------------------------------------------------------ *)
(** ** Changing a phone, when it succeeds *)



(* ------------------------------------------------------------------ *)
(** ** A birthday that is refused *)

(** For a known name and a birthday string that validation refuses,
    [add-birthday] answers "Invalid date format. Use DD.MM.YYYY" and the
    book is exactly as before: the birthday already stored, if any, is
    kept. *)
Theorem add_birthday_refused_keeps_book :
  forall book n r s rest,
    find book n = Some r ->
    (forall b, Birthday_init s <> Ok b) ->
    add_birthday (n :: s :: rest) book = (Ok BIRTHDAY_ERROR, book).
Proof.
  intros book n r s rest Hfind Hbad.
  apply input_error_ValueError.
  unfold add_birthday_func, Record_add_birthday. rewrite Hfind.
  destruct (Birthday_init_total s) as [[b Hb]|Hr].
  - now destruct (Hbad b).
  - now rewrite Hr.
Qed.

Lemma add_birthday_refused_keeps_book_witness :
  add_birthday [carl; lit "31.02.2020"] carl_book = (Ok BIRTHDAY_ERROR, carl_book).
Proof.
  apply (add_birthday_refused_keeps_book
           carl_book carl (Record_init carl) (lit "31.02.2020") [] eq_refl).
  intros b H. vm_compute in H. discriminate H.
Defined.

(* ------------------------------------------------------------------ *)
(** ** A contact that has just been created *)

Lemma add_contact_new_find book n p rest :
  find book n = None ->
  exists ps,
    find (snd (add_contact (n :: p :: rest) book)) n
    = Some (mkRecord (mkName n) ps None) /\
    ps = if ten_digits p then [mkPhone p] else [].
Proof.
  intros Hfind. unfold add_contact. rewrite input_error_snd.
  unfold add_contact_func. rewrite Hfind.
  assert (Hnew : find (add_record book (Record_init n)) n = Some (Record_init n))
    by apply dict_get_set_same.
  destruct (truthy p) eqn:Ht.
  - rewrite Record_add_phone_eq. destruct (ten_digits p) eqn:Hp; simpl.
    + eexists. split; [apply find_mutate_same; congruence | reflexivity].
    + eexists. split; [exact Hnew | reflexivity].
  - destruct p; [|discriminate]. simpl. eexists. split; [exact Hnew|reflexivity].
Qed.

(** Whatever the phone argument, [add] for a new name creates the
    contact: afterwards [show-birthday] answers "No birthday set." and
    [phone] answers the phone if it passed validation and the empty string
    if it did not. *)
Theorem add_contact_always_creates :
  forall pad_year book n p rest,
    find book n = None ->
    let book' := snd (add_contact (n :: p :: rest) book) in
    fst (show_birthday pad_year [n] book') = Ok (lit "No birthday set.") /\
    fst (show_phones [n] book') = Ok (if ten_digits p then p else []).
Proof.
  intros pad_year book n p rest Hfind book'.
  destruct (add_contact_new_find book n p rest Hfind) as (ps & Hf & Hps).
  fold book' in Hf. split.
  - unfold show_birthday, input_error, show_birthday_func. now rewrite Hf.
  - rewrite (show_phones_found _ _ _ [] Hf). simpl.
    unfold phones_line. simpl. rewrite Hps.
    destruct (ten_digits p); reflexivity.
Qed.

Lemma add_contact_always_creates_witness :
  let book' := snd (add_contact [lit "Bob"; lit "12"] AddressBook_init) in
  fst (show_birthday false [lit "Bob"] book') = Ok (lit "No birthday set.") /\
  fst (show_phones [lit "Bob"] book') = Ok [].
Proof.
  exact (add_contact_always_creates
           false AddressBook_init (lit "Bob") (lit "12") [] eq_refl).
Defined.

(* ------------------------------------------------------------------ *)
(** ** Storing and finding records *)

(** [add_record] then [find]: the record is found under its name, the
    other names are as before; a new name goes after the names already
    there and a known name keeps its place. *)
Theorem add_record_then_find :
  forall book record,
    let n := name_value (name record) in
    find (add_record book record) n = Some record /\
    (forall n', n <> n' -> find (add_record book record) n' = find book n') /\
    (find book n = None ->
     records (add_record book record) = records book ++ [(n, record)]) /\
    (find book n <> None -> keys (add_record book record) = keys book).
Proof.
  intros book record n. unfold find, add_record, keys. simpl.
  split; [apply dict_get_set_same|].
  split; [intros n' Hne; now apply dict_get_set_other|].
  split; [apply dict_set_fresh | apply dict_set_keys].
Qed.

Lemma add_record_then_find_witness :
  records (add_record bob_book (Record_init carl))
  = records bob_book ++ [(carl, Record_init carl)] /\
  keys (add_record bob_book (Record_init (lit "Bob"))) = keys bob_book.
Proof.
  destruct (add_record_then_find bob_book (Record_init carl))
    as (_ & _ & Hnew & _).
  destruct (add_record_then_find bob_book (Record_init (lit "Bob")))
    as (_ & _ & _ & Hold).
  split; [apply Hnew; reflexivity | apply Hold; discriminate].
Defined.

(* ------------------------------------------------------------------ *)
(** ** Handlers that only read *)

(** [phone], [all], [show-birthday] and [birthdays] never change the
    book, whatever they answer and also when they raise. *)
Theorem queries_leave_book_unchanged :
  forall pad_year today args book,
    snd (show_phones args book) = book /\
    snd (show_all args book) = book /\
    snd (show_birthday pad_year args book) = book /\
    snd (birthdays pad_year today args book) = book.
Proof.
  intros. unfold show_phones, show_all, show_birthday, birthdays.
  rewrite !input_error_snd.
  rewrite show_phones_func_snd, show_birthday_func_snd, birthdays_func_snd.
  repeat split.
Qed.

(* ------------------------------------------------------------------ *)
(** ** The exceptions that get out *)

Lemma check_time_fields_raises hh mm ss us e :
  check_time_fields hh mm ss us = Raise e -> exists msg, e = ValueError msg.
Proof.
  unfold check_time_fields.
  repeat match goal with
         | |- context [if ?c then _ else _] => destruct c
         end; intros H; inversion H; eauto.
Qed.

Lemma replace_year_raises d y e :
  replace_year d y = Raise e -> exists msg, e = ValueError msg.
Proof.
  unfold replace_year, datetime_new.
  destruct (check_date_fields y (month d) (day d)) as [u|e1] eqn:Hd; simpl.
  - destruct (check_time_fields (hour d) (minute d) (second d) (microsecond d))
      as [u'|e2] eqn:Ht; simpl; [discriminate|].
    intros H. inversion H; subst. eapply check_time_fields_raises; eauto.
  - intros H. inversion H; subst. eapply check_date_fields_raises; eauto.
Qed.

Lemma upcoming_loop_raises pad_year today values :
  forall acc e,
    upcoming_loop pad_year today values acc = Raise e ->
    e = OverflowError \/ exists msg, e = ValueError msg.
Proof.
  induction values as [|record values IH]; intros acc e; simpl; [discriminate|].
  destruct (birthday record) as [b|]; [|apply IH].
  destruct (replace_year (birthday_value b) (year today)) as [d|e1] eqn:Hr; simpl.
  - destruct (dt_le today d); [|apply IH].
    destruct (add_days today 7) as [limit|].
    + destruct (dt_le d limit); apply IH.
    + intros H. inversion H. now left.
  - intros H. inversion H; subst. right. eapply replace_year_raises; eauto.
Qed.

Lemma add_contact_answers args book : exists s, fst (add_contact args book) = Ok s.
Proof.
  unfold add_contact, input_error, add_contact_func.
  destruct args as [|n [|p rest]]; simpl; eauto.
  destruct (find book n) as [r|]; destruct (truthy p); simpl; eauto;
    rewrite Record_add_phone_eq; destruct (ten_digits p); simpl; eauto.
Qed.

Lemma show_all_answers args book : exists s, fst (show_all args book) = Ok s.
Proof. unfold show_all, input_error, show_all_func. simpl. eauto. Qed.

Lemma change_phone_raises args book e :
  fst (change_phone args book) = Raise e ->
  e = AttributeError /\ exists n rest, args = n :: rest /\ find book n = None.
Proof.
  unfold change_phone, input_error, change_phone_func.
  destruct args as [|n [|o [|nw rest]]]; simpl; try discriminate.
  destruct (find book n) as [r|] eqn:Hf; simpl.
  - rewrite Record_add_phone_eq. destruct (ten_digits nw); discriminate.
  - intros H. inversion H. eauto.
Qed.

Lemma show_phones_raises args book e :
  fst (show_phones args book) = Raise e ->
  e = AttributeError /\ exists n rest, args = n :: rest /\ find book n = None.
Proof.
  unfold show_phones, input_error, show_phones_func.
  destruct args as [|n rest]; simpl; try discriminate.
  destruct (find book n) as [r|] eqn:Hf; simpl; [discriminate|].
  intros H. inversion H. eauto.
Qed.

Lemma add_birthday_raises args book e :
  fst (add_birthday args book) = Raise e ->
  e = AttributeError /\ exists n rest, args = n :: rest /\ find book n = None.
Proof.
  unfold add_birthday, input_error, add_birthday_func.
  destruct args as [|n [|b rest]]; simpl; try discriminate.
  destruct (find book n) as [r|] eqn:Hf; simpl.
  - unfold Record_add_birthday.
    destruct (Birthday_init_total b) as [[b' ->]| ->]; discriminate.
  - intros H. inversion H. eauto.
Qed.

Lemma show_birthday_raises pad_year args book e :
  fst (show_birthday pad_year args book) = Raise e ->
  e = AttributeError /\ exists n rest, args = n :: rest /\ find book n = None.
Proof.
  unfold show_birthday, input_error, show_birthday_func.
  destruct args as [|n rest]; simpl; try discriminate.
  destruct (find book n) as [r|] eqn:Hf; simpl.
  - destruct (birthday r); discriminate.
  - intros H. inversion H. eauto.
Qed.

Lemma birthdays_raises pad_year today args book e :
  fst (birthdays pad_year today args book) = Raise e -> e = OverflowError.
Proof.
  unfold birthdays, input_error, birthdays_func, get_upcoming_birthdays.
  destruct (upcoming_loop pad_year today (List.map snd (records book)) [])
    as [[|x l]|e1] eqn:Hl; simpl; try discriminate.
  apply upcoming_loop_raises in Hl as [->|[msg ->]]; simpl.
  - intros H. now inversion H.
  - discriminate.
Qed.

(** Which exceptions the wrapped handlers let out.  [add] and [all]
    always answer.  [change], [phone], [add-birthday] and [show-birthday]
    let out nothing but [AttributeError], and only when their first
    argument is a name the book does not hold.  [birthdays] lets out
    nothing but [OverflowError]. *)
Theorem escaping_exceptions :
  forall pad_year today args book,
    let unknown := exists n rest, args = n :: rest /\ find book n = None in
    (exists s, fst (add_contact args book) = Ok s) /\
    (exists s, fst (show_all args book) = Ok s) /\
    (forall e, fst (change_phone args book) = Raise e ->
               e = AttributeError /\ unknown) /\
    (forall e, fst (show_phones args book) = Raise e ->
               e = AttributeError /\ unknown) /\
    (forall e, fst (add_birthday args book) = Raise e ->
               e = AttributeError /\ unknown) /\
    (forall e, fst (show_birthday pad_year args book) = Raise e ->
               e = AttributeError /\ unknown) /\
    (forall e, fst (birthdays pad_year today args book) = Raise e ->
               e = OverflowError).
Proof.
  intros pad_year today args book unknown. subst unknown.
  split; [apply add_contact_answers|].
  split; [apply show_all_answers|].
  split; [intros e; apply change_phone_raises|].
  split; [intros e; apply show_phones_raises|].
  split; [intros e; apply add_birthday_raises|].
  split; [intros e; apply show_birthday_raises|].
  intros e. apply birthdays_raises.
Qed.

Lemma escaping_exceptions_witness :
  exists n rest, bob_args = n :: rest /\ find AddressBook_init n = None.
Proof.
  destruct (escaping_exceptions true (afternoon 10 6 2024) bob_args
                                AddressBook_init) as (_ & _ & H & _).
  exact (proj2 (H AttributeError eq_refl)).
Defined.

(* ------------------------------------------------------------------ *)
(** ** Names are never removed, renamed or reordered *)

Lemma find_keys book n : find book n <> None <-> In n (keys book).
Proof.
  unfold find, keys. induction (records book) as [|[k v] d IH]; simpl.
  - split; [congruence | tauto].
  - destruct (eqb k n) eqn:E.
    + apply eqb_eq in E. split; [now left | congruence].
    + apply eqb_neq in E. rewrite IH. split; [tauto|]. intros [H|H]; tauto.
Qed.

Lemma keys_mutate book n r :
  find book n <> None -> keys (mutate book n r) = keys book.
Proof. intros _. apply dict_replace_keys. Qed.

Lemma keys_add_record_new book n :
  find book n = None ->
  keys (add_record book (Record_init n)) = keys book ++ [n].
Proof.
  intros H. unfold keys, add_record. simpl.
  rewrite dict_set_fresh by exact H. now rewrite map_app.
Qed.

Lemma find_Some_neq book n (r : Record_) : find book n = Some r -> find book n <> None.
Proof. congruence. Qed.

Lemma dispatch_keys pad_year c book :
  keys (snd (dispatch pad_year c book)) = keys book \/
  exists n, find book n = None /\
            keys (snd (dispatch pad_year c book)) = keys book ++ [n].
Proof.
  destruct c;
    cbv [dispatch add_contact change_phone show_phones show_all add_birthday
         show_birthday birthdays];
    rewrite input_error_snd.
  - unfold add_contact_func. destruct args as [|n [|p rest]]; simpl; auto.
    destruct (find book n) as [r|] eqn:Hf.
    + left. destruct (truthy p); simpl; auto.
      destruct (Record_add_phone r p); simpl; auto.
      apply keys_mutate. congruence.
    + right. exists n. split; [exact Hf|].
      pose proof (keys_add_record_new book n Hf) as Hk.
      destruct (truthy p); simpl; auto.
      destruct (Record_add_phone (Record_init n) p); simpl; auto.
      rewrite keys_mutate; auto.
      unfold find, add_record. simpl. rewrite dict_get_set_same. discriminate.
  - left. unfold change_phone_func.
    destruct args as [|n [|o [|nw rest]]]; simpl; auto.
    destruct (find book n) as [r|] eqn:Hf; simpl; auto.
    assert (Hk : keys (mutate book n (Record_remove_phone r o)) = keys book)
      by (apply keys_mutate; congruence).
    destruct (Record_add_phone _ nw); simpl; auto.
    rewrite keys_mutate; auto. rewrite find_mutate_same; congruence.
  - left. now rewrite show_phones_func_snd.
  - now left.
  - left. unfold add_birthday_func.
    destruct args as [|n [|b rest]]; simpl; auto.
    destruct (find book n) as [r|] eqn:Hf; simpl; auto.
    destruct (Record_add_birthday r b); simpl; auto.
    apply keys_mutate. congruence.
  - left. now rewrite show_birthday_func_snd.
  - left. now rewrite birthdays_func_snd.
Qed.

(** No sequence of handler invocations removes, renames or reorders
    contacts: the names of the book it starts from stay where they are,
    new names come after them, and a name that was known stays known. *)
Theorem contacts_are_never_removed :
  forall pad_year cs book,
    (exists added, keys (run pad_year cs book) = keys book ++ added) /\
    (forall n, find book n <> None -> find (run pad_year cs book) n <> None).
Proof.
  intros pad_year cs.
  assert (Hprefix : forall book,
             exists added, keys (run pad_year cs book) = keys book ++ added).
  { induction cs as [|c cs IH]; intros book; simpl.
    - exists []. now rewrite app_nil_r.
    - destruct (IH (snd (dispatch pad_year c book))) as [added Ha].
      destruct (dispatch_keys pad_year c book) as [Hk|(n & _ & Hk)];
        rewrite Hk in Ha.
      + now exists added.
      + exists (n :: added). rewrite Ha. now rewrite <- app_assoc. }
  intros book. split; [apply Hprefix|].
  intros n Hn. apply find_keys. apply find_keys in Hn.
  destruct (Hprefix book) as [added ->]. apply in_or_app. now left.
Qed.

Lemma contacts_are_never_removed_witness :
  find (run true [Change [lit "Bob"; lit "1234567890"; lit "x"];
                  Add [carl; lit "1"]; AddBirthday [lit "Bob"; lit "x"]]
            bob_book) (lit "Bob") <> None.
Proof.
  apply (contacts_are_never_removed true _ bob_book). discriminate.
Defined.

(* ------------------------------------------------------------------ *)
(** ** Every record is stored once, under its own name *)

Lemma Record_add_phone_name r p r' :
  Record_add_phone r p = Ok r' -> name r' = name r.
Proof.
  rewrite Record_add_phone_eq. destruct (ten_digits p); [|discriminate].
  intros H. now inversion H.
Qed.

Lemma Record_add_birthday_name r b r' :
  Record_add_birthday r b = Ok r' -> name r' = name r.
Proof.
  unfold Record_add_birthday. destruct (Birthday_init b); simpl; [|discriminate].
  intros H. now inversion H.
Qed.

Lemma names_ok_find book n r :
  names_ok book -> find book n = Some r -> name_value (name r) = n.
Proof.
  unfold names_ok, find. induction (records book) as [|[k v] d IH]; simpl;
    intros Hok Hf; [discriminate|].
  inversion Hok as [|x l Hk Hd]. simpl in Hk.
  destruct (eqb k n) eqn:E; [|auto].
  apply eqb_eq in E. congruence.
Qed.

Lemma names_ok_set d n (r : Record_) :
  Forall (fun kv => name_value (name (snd kv)) = fst kv) d ->
  name_value (name r) = n ->
  Forall (fun kv => name_value (name (snd kv)) = fst kv) (dict_set d n r).
Proof.
  intros Hd Hr. induction d as [|[k v] d IH]; simpl.
  - constructor; auto.
  - inversion Hd as [|x l Hk Hd']. destruct (eqb k n) eqn:E.
    + apply eqb_eq in E. constructor; [simpl; congruence | exact Hd'].
    + constructor; auto.
Qed.

Lemma names_ok_mutate book n r :
  names_ok book -> name_value (name r) = n -> names_ok (mutate book n r).
Proof.
  unfold names_ok, mutate. simpl. intros Hd Hr.
  induction (records book) as [|[k v] d IH]; simpl; [constructor|].
  inversion Hd as [|x l Hk Hd']. destruct (eqb k n) eqn:E.
  - apply eqb_eq in E. constructor; [simpl; congruence | exact Hd'].
  - constructor; auto.
Qed.

Lemma dispatch_names_ok pad_year c book :
  names_ok book -> names_ok (snd (dispatch pad_year c book)).
Proof.
  intros Hb. destruct c;
    cbv [dispatch add_contact change_phone show_phones show_all add_birthday
         show_birthday birthdays];
    rewrite input_error_snd.
  - unfold add_contact_func. destruct args as [|n [|p rest]]; simpl; auto.
    destruct (find book n) as [r|] eqn:Hf.
    + destruct (truthy p); simpl; auto.
      destruct (Record_add_phone r p) as [r'|] eqn:Ha; simpl; auto.
      apply names_ok_mutate; auto.
      rewrite (Record_add_phone_name _ _ _ Ha). eapply names_ok_find; eauto.
    + assert (H1 : names_ok (add_record book (Record_init n)))
        by (apply names_ok_set; auto).
      destruct (truthy p); simpl; auto.
      destruct (Record_add_phone (Record_init n) p) as [r'|] eqn:Ha; simpl; auto.
      apply names_ok_mutate; auto.
      now rewrite (Record_add_phone_name _ _ _ Ha).
  - unfold change_phone_func.
    destruct args as [|n [|o [|nw rest]]]; simpl; auto.
    destruct (find book n) as [r|] eqn:Hf; simpl; auto.
    pose proof (names_ok_find _ _ _ Hb Hf) as Hn.
    assert (H1 : names_ok (mutate book n (Record_remove_phone r o)))
      by (apply names_ok_mutate; auto).
    destruct (Record_add_phone _ nw) as [r'|] eqn:Ha; simpl; auto.
    apply names_ok_mutate; auto.
    now rewrite (Record_add_phone_name _ _ _ Ha).
  - now rewrite show_phones_func_snd.
  - exact Hb.
  - unfold add_birthday_func.
    destruct args as [|n [|b rest]]; simpl; auto.
    destruct (find book n) as [r|] eqn:Hf; simpl; auto.
    destruct (Record_add_birthday r b) as [r'|] eqn:Ha; simpl; auto.
    apply names_ok_mutate; auto.
    rewrite (Record_add_birthday_name _ _ _ Ha). eapply names_ok_find; eauto.
  - now rewrite show_birthday_func_snd.
  - now rewrite birthdays_func_snd.
Qed.

Lemma dispatch_NoDup pad_year c book :
  NoDup (keys book) -> NoDup (keys (snd (dispatch pad_year c book))).
Proof.
  intros Hb. destruct (dispatch_keys pad_year c book) as [->|(n & Hn & ->)];
    [exact Hb|].
  apply NoDup_app; [exact Hb | constructor; [tauto | constructor] |].
  intros x Hx [<-|[]]. apply find_keys in Hx. contradiction.
Qed.

Lemma run_names pad_year cs :
  forall book,
    NoDup (keys book) -> names_ok book ->
    NoDup (keys (run pad_year cs book)) /\ names_ok (run pad_year cs book).
Proof.
  induction cs as [|c cs IH]; intros b Hd Hn; simpl; [tauto|].
  apply IH; [now apply dispatch_NoDup | now apply dispatch_names_ok].
Qed.

Lemma NoDup_keys_find book n r :
  NoDup (keys book) -> In (n, r) (records book) -> find book n = Some r.
Proof.
  unfold find, keys. induction (records book) as [|[k v] d IH];
    intros Hd Hin; [destruct Hin|].
  simpl in *. inversion Hd as [|x l Hnot Hd']; subst.
  destruct Hin as [E|Hin].
  - inversion E; subst. now rewrite eqb_refl.
  - destruct (eqb k n) eqn:Ek; [|auto].
    apply eqb_eq in Ek. subst k. exfalso. apply Hnot.
    change n with (fst (n, r)). now apply in_map.
Qed.

(** In every book reached from the empty one, no name occurs twice and
    every record carries the name it is stored under, so that the name
    [all] prints and the name [birthdays] prints are the same. *)
Theorem records_stored_under_their_name :
  forall pad_year cs,
    let book := run pad_year cs AddressBook_init in
    NoDup (keys book) /\
    (forall n r, In (n, r) (records book) ->
                 name_value (name r) = n /\ find book n = Some r).
Proof.
  intros pad_year cs book.
  destruct (run_names pad_year cs AddressBook_init) as [Hd Hn];
    [constructor | constructor |].
  fold book in Hd, Hn. split; [exact Hd|].
  intros n r Hin. split.
  - unfold names_ok in Hn. rewrite Forall_forall in Hn. exact (Hn _ Hin).
  - now apply NoDup_keys_find.
Qed.

Lemma records_stored_under_their_name_witness :
  name_value (name (mkRecord (mkName carl) [] None)) = carl.
Proof.
  destruct (records_stored_under_their_name
              true [Add [carl; lit "1"]; Add [carl; lit "2"]]) as [_ H].
  apply (H carl (mkRecord (mkName carl) [] None)).
  vm_compute. left. reflexivity.
Defined.

(* ------------------------------------------------------------------ *)
(** ** Listing all contacts *)

(** In every book reached from the empty one, [all] answers one line per
    contact, in the order the contacts were created; the line of a contact
    is its name, ": " and what [phone] answers for that name. *)
Theorem show_all_agrees_with_show_phones :
  forall pad_year cs args,
    let book := run pad_year cs AddressBook_init in
    let line n := n ++ lit ": " ++
                  match fst (show_phones [n] book) with
                  | Ok s => s
                  | Raise _ => []
                  end in
    fst (show_all args book) = Ok (join NEWLINE (List.map line (keys book))).
Proof.
  intros pad_year cs args book line.
  destruct (run_names pad_year cs AddressBook_init) as [Hd _];
    [constructor | constructor |].
  fold book in Hd.
  assert (Hlines : List.map (fun kv => fst kv ++ lit ": " ++ phones_line (snd kv))
                            (records book)
                   = List.map line (keys book)).
  { unfold keys. rewrite map_map. apply map_ext_in.
    intros [n r] Hin. pose proof (NoDup_keys_find book n r Hd Hin) as Hf.
    unfold line. cbn [fst snd].
    pose proof (show_phones_found book n r [] Hf) as E.
    change (list char) with str in *. now rewrite E. }
  rewrite <- Hlines. reflexivity.
Qed.

(* ------------------------------------------------------------------ *)
(** ** Upcoming birthdays: what is listed *)

Lemma upcoming_loop_no_birthday pad_year today values :
  (forall r, In r values -> birthday r = None) ->
  forall acc, upcoming_loop pad_year today values acc = Ok acc.
Proof.
  induction values as [|r values IH]; intros H acc; simpl; [reflexivity|].
  rewrite (H r (or_introl eq_refl)). apply IH. intros r' Hr'. apply H. now right.
Qed.

(** When no contact has a birthday, [birthdays] answers
    "No upcoming birthdays.", whatever the clock says. *)
Theorem birthdays_without_birthdays :
  forall pad_year today args book,
    (forall n r, In (n, r) (records book) -> birthday r = None) ->
    birthdays pad_year today args book
    = (Ok (lit "No upcoming birthdays."), book).
Proof.
  intros pad_year today args book H.
  unfold birthdays, input_error, birthdays_func, get_upcoming_birthdays.
  rewrite upcoming_loop_no_birthday; [reflexivity|].
  intros r Hr. apply in_map_iff in Hr as ([n r'] & <- & Hin).
  exact (H n r' Hin).
Qed.

Lemma birthdays_without_birthdays_witness :
  birthdays true (afternoon 10 6 2024) [] bob_book
  = (Ok (lit "No upcoming birthdays."), bob_book).
Proof.
  apply (birthdays_without_birthdays true (afternoon 10 6 2024) [] bob_book).
  intros n r [H|[]]. now inversion H.
Defined.

Lemma replace_year_Ok d y d' :
  replace_year d y = Ok d' ->
  d' = mkdatetime y (month d) (day d)
                  (hour d) (minute d) (second d) (microsecond d).
Proof.
  unfold replace_year, datetime_new.
  destruct (check_date_fields y (month d) (day d)); simpl; [|discriminate].
  destruct (check_time_fields (hour d) (minute d) (second d) (microsecond d));
    simpl; [|discriminate].
  intros H. now inversion H.
Qed.

Lemma dt_le_month_day a b :
  year a = year b -> dt_le a b = true -> month_day_le a b.
Proof.
  destruct a as [y m d hh mm ss us], b as [y' m' d' hh' mm' ss' us'].
  unfold dt_le, fields, month_day_le. simpl. intros ->.
  rewrite Z.compare_refl.
  destruct (Z.compare_spec m m'); [| lia | discriminate].
  destruct (Z.compare_spec d d'); [lia | lia | discriminate].
Qed.

Lemma upcoming_loop_listed pad_year today values :
  forall acc l,
    upcoming_loop pad_year today values acc = Ok l ->
    forall x, In x l ->
      In x acc \/
      exists record b,
        In record values /\ birthday record = Some b /\
        fst x = name_value (name record) /\
        month_day_le today (birthday_value b) /\
        snd x = two_digits (day (birthday_value b)) ++ lit "." ++
                two_digits (month (birthday_value b)) ++ lit "." ++
                year_str pad_year (year today).
Proof.
  induction values as [|record values IH]; intros acc l; simpl.
  - intros H. inversion H; subst. auto.
  - assert (Hskip : upcoming_loop pad_year today values acc = Ok l ->
                    forall x, In x l ->
                      In x acc \/
                      exists record0 b,
                        (record = record0 \/ In record0 values) /\
                        birthday record0 = Some b /\
                        fst x = name_value (name record0) /\
                        month_day_le today (birthday_value b) /\
                        snd x = two_digits (day (birthday_value b)) ++ lit "." ++
                                two_digits (month (birthday_value b)) ++ lit "." ++
                                year_str pad_year (year today)).
    { intros H x Hx. destruct (IH _ _ H x Hx) as [Ha|(r & b & Hr & Hrest)];
        [now left|]. right. exists r, b. tauto. }
    destruct (birthday record) as [b|] eqn:Hb; [|exact Hskip].
    destruct (replace_year (birthday_value b) (year today)) as [d|e] eqn:Hr;
      simpl; [|discriminate].
    destruct (dt_le today d) eqn:Hle; [|exact Hskip].
    destruct (add_days today 7) as [limit|]; [|discriminate].
    destruct (dt_le d limit); [|exact Hskip].
    intros H x Hx.
    destruct (IH _ _ H x Hx) as [Ha|(r & b' & Hin & Hrest)].
    + apply in_app_or in Ha as [Ha|[<-|[]]]; [now left|].
      right. exists record, b. apply replace_year_Ok in Hr. subst d.
      repeat split; auto.
      apply dt_le_month_day in Hle; [exact Hle | reflexivity].
    + right. exists r, b'. tauto.
Qed.

(** Whatever [get_upcoming_birthdays] lists is the birthday of a record
    of the book, printed with the year of [today], and its month and day
    are not earlier in the year than those of [today]: a birthday in
    early January is never listed at the end of December. *)
Theorem upcoming_birthdays_do_not_wrap_around :
  forall pad_year today book l n s,
    get_upcoming_birthdays pad_year today book = Ok l ->
    In (n, s) l ->
    exists k record b,
      In (k, record) (records book) /\ birthday record = Some b /\
      n = name_value (name record) /\
      month_day_le today (birthday_value b) /\
      s = two_digits (day (birthday_value b)) ++ lit "." ++
          two_digits (month (birthday_value b)) ++ lit "." ++
          year_str pad_year (year today).
Proof.
  intros pad_year today book l n s Hl Hin.
  destruct (upcoming_loop_listed _ _ _ _ _ Hl _ Hin)
    as [[]|(record & b & Hr & Hb & Hn & Hmd & Hs)].
  apply in_map_iff in Hr as ([k r] & E & Hr). simpl in E. subst r.
  exists k, record, b. auto.
Qed.

Lemma upcoming_birthdays_do_not_wrap_around_witness :
  exists k record b,
    In (k, record) (records dan_book) /\ birthday record = Some b /\
    lit "Dan" = name_value (name record) /\
    month_day_le (afternoon 10 6 2024) (birthday_value b) /\
    lit "12.06.2024"
    = two_digits (day (birthday_value b)) ++ lit "." ++
      two_digits (month (birthday_value b)) ++ lit "." ++
      year_str false 2024.
Proof.
  apply (upcoming_birthdays_do_not_wrap_around
           false (afternoon 10 6 2024) dan_book
           [(lit "Dan", lit "12.06.2024")] (lit "Dan") (lit "12.06.2024")).
  - reflexivity.
  - left. reflexivity.
Defined.

(* ------------------------------------------------------------------ *)
(** ** Stored birthdays and 29 February *)

Lemma Birthday_init_midnight s b :
  Birthday_init s = Ok b -> midnight_date (birthday_value b).
Proof.
  intros H. apply Birthday_init_Ok, strptime_dmY_Ok in H.
  destruct H as (ds & ms & ys & rest & y & m & d & _ & _ & _ & _ & Hc & ->).
  unfold midnight_date. simpl. auto.
Qed.

Lemma birthdays_ok_mutate book n r :
  birthdays_ok book ->
  (forall b, birthday r = Some b -> midnight_date (birthday_value b)) ->
  birthdays_ok (mutate book n r).
Proof.
  intros Hb Hr. unfold birthdays_ok, mutate. simpl.
  now apply (dict_replace_values _
               (fun r => forall b, birthday r = Some b ->
                                   midnight_date (birthday_value b))).
Qed.

Lemma birthdays_ok_add_record book r :
  birthdays_ok book ->
  (forall b, birthday r = Some b -> midnight_date (birthday_value b)) ->
  birthdays_ok (add_record book r).
Proof.
  intros Hb Hr. unfold birthdays_ok, add_record. simpl.
  now apply (dict_set_values _
               (fun r => forall b, birthday r = Some b ->
                                   midnight_date (birthday_value b))).
Qed.

Lemma birthdays_ok_find book n r :
  birthdays_ok book -> find book n = Some r ->
  forall b, birthday r = Some b -> midnight_date (birthday_value b).
Proof.
  intros Hb Hf.
  exact (dict_get_values _
           (fun r => forall b, birthday r = Some b ->
                               midnight_date (birthday_value b))
           _ _ _ Hb Hf).
Qed.

Lemma Record_add_phone_birthday r p r' :
  Record_add_phone r p = Ok r' -> birthday r' = birthday r.
Proof.
  rewrite Record_add_phone_eq. destruct (ten_digits p); [|discriminate].
  intros H. now inversion H.
Qed.

Lemma dispatch_birthdays_ok pad_year c book :
  birthdays_ok book -> birthdays_ok (snd (dispatch pad_year c book)).
Proof.
  intros Hb. destruct c;
    cbv [dispatch add_contact change_phone show_phones show_all add_birthday
         show_birthday birthdays];
    rewrite input_error_snd.
  - unfold add_contact_func. destruct args as [|n [|p rest]]; simpl; auto.
    destruct (find book n) as [r|] eqn:Hf.
    + destruct (truthy p); simpl; auto.
      destruct (Record_add_phone r p) as [r'|] eqn:Ha; simpl; auto.
      apply birthdays_ok_mutate; auto.
      rewrite (Record_add_phone_birthday _ _ _ Ha).
      eapply birthdays_ok_find; eauto.
    + assert (H1 : birthdays_ok (add_record book (Record_init n))).
      { apply (birthdays_ok_add_record book (Record_init n) Hb). discriminate. }
      destruct (truthy p); simpl; auto.
      destruct (Record_add_phone (Record_init n) p) as [r'|] eqn:Ha; simpl; auto.
      apply birthdays_ok_mutate; auto.
      rewrite (Record_add_phone_birthday _ _ _ Ha). discriminate.
  - unfold change_phone_func.
    destruct args as [|n [|o [|nw rest]]]; simpl; auto.
    destruct (find book n) as [r|] eqn:Hf; simpl; auto.
    pose proof (birthdays_ok_find _ _ _ Hb Hf) as Hr.
    assert (H1 : birthdays_ok (mutate book n (Record_remove_phone r o)))
      by (apply birthdays_ok_mutate; auto).
    destruct (Record_add_phone _ nw) as [r'|] eqn:Ha; simpl; auto.
    apply birthdays_ok_mutate; auto.
    now rewrite (Record_add_phone_birthday _ _ _ Ha).
  - now rewrite show_phones_func_snd.
  - exact Hb.
  - unfold add_birthday_func.
    destruct args as [|n [|b rest]]; simpl; auto.
    destruct (find book n) as [r|] eqn:Hf; simpl; auto.
    unfold Record_add_birthday.
    destruct (Birthday_init b) as [b'|] eqn:Hi; simpl; auto.
    apply birthdays_ok_mutate; auto. simpl.
    intros b0 E. inversion E; subst. eapply Birthday_init_midnight; eauto.
  - now rewrite show_birthday_func_snd.
  - now rewrite birthdays_func_snd.
Qed.

Lemma run_birthdays_ok pad_year cs :
  forall book, birthdays_ok book -> birthdays_ok (run pad_year cs book).
Proof.
  induction cs as [|c cs IH]; intros book Hbk; simpl; [exact Hbk|].
  apply IH. now apply dispatch_birthdays_ok.
Qed.

(** In every book reached from the empty one, a stored birthday is a day
    that exists in the calendar, in a year from 1 to 9999, at
    midnight. *)
Theorem stored_birthdays_are_calendar_dates :
  forall pad_year cs n r b,
    In (n, r) (records (run pad_year cs AddressBook_init)) ->
    birthday r = Some b ->
    let d := birthday_value b in
    (1 <= year d <= 9999)%Z /\ real_date (day d) (month d) (year d) = true /\
    hour d = 0%Z /\ minute d = 0%Z /\ second d = 0%Z /\ microsecond d = 0%Z.
Proof.
  intros pad_year cs n r b Hin Hb d.
  pose proof (run_birthdays_ok pad_year cs AddressBook_init (Forall_nil _))
    as Hok.
  unfold birthdays_ok in Hok. rewrite Forall_forall in Hok.
  destruct (Hok _ Hin b Hb) as (Hc & Hrest).
  apply check_date_fields_real_date in Hc. tauto.
Qed.

Lemma stored_birthdays_are_calendar_dates_witness :
  real_date 29 2 2024 = true.
Proof.
  apply (stored_birthdays_are_calendar_dates
           true [Add [carl; lit "1"]; AddBirthday [carl; lit "29.02.2024"];
                 AddBirthday [carl; lit "30.02.2024"]]
           carl
           (mkRecord (mkName carl) []
                     (Some (mkBirthday (mkdatetime 2024 2 29 0 0 0 0))))
           (mkBirthday (mkdatetime 2024 2 29 0 0 0 0))).
  - vm_compute. left. reflexivity.
  - reflexivity.
Defined.

Lemma valid_date_fields today :
  valid today = true ->
  check_date_fields (year today) (month today) (day today) = Ok tt.
Proof.
  unfold valid, datetime_new.
  destruct (check_date_fields (year today) (month today) (day today))
    as [[]|e]; [reflexivity | discriminate].
Qed.

Lemma days_before_month_range y m :
  (1 <= m <= 12)%Z -> (0 <= days_before_month y m <= 335)%Z.
Proof.
  intros Hm. unfold days_before_month.
  assert (H : (m = 1 \/ m = 2 \/ m = 3 \/ m = 4 \/ m = 5 \/ m = 6 \/ m = 7
               \/ m = 8 \/ m = 9 \/ m = 10 \/ m = 11 \/ m = 12)%Z) by lia.
  repeat (destruct H as [->|H]); try subst m; simpl;
    destruct (is_leap y); simpl; lia.
Qed.

Lemma days_in_month_le y m : (1 <= m <= 12)%Z -> (days_in_month y m <= 31)%Z.
Proof.
  intros Hm. rewrite days_in_month_month_length by exact Hm.
  apply month_length_le.
Qed.

Lemma days_before_year_range y :
  (1 <= y <= 9998)%Z -> (0 <= days_before_year y <= 3651428)%Z.
Proof.
  intros Hy. unfold days_before_year. cbv zeta.
  Z.div_mod_to_equations. lia.
Qed.

(** A week from any day before the last year of the calendar exists. *)
Lemma add_days_week today :
  valid today = true -> (year today <= 9998)%Z ->
  exists limit, add_days today 7 = Some limit.
Proof.
  intros Hv Hy. apply valid_date_fields, check_date_fields_Ok in Hv.
  destruct Hv as (Hyr & Hm & Hd).
  pose proof (days_before_month_range (year today) _ Hm).
  pose proof (days_in_month_le (year today) _ Hm).
  pose proof (days_before_year_range (year today) ltac:(lia)).
  unfold add_days, toordinal, ymd2ord, MAXORDINAL.
  replace ((0 <? _) && (_ <=? 3652059))%Z with true.
  - destruct (ord2ymd _) as [[y m] d]. eauto.
  - symmetry. apply andb_true_iff. rewrite Z.ltb_lt, Z.leb_le. lia.
Qed.

Lemma days_in_month_february y : days_in_month y 2 = if is_leap y then 29%Z else 28%Z.
Proof. unfold days_in_month. simpl. now destruct (is_leap y). Qed.

Lemma days_in_month_same y y' m : m <> 2%Z -> days_in_month y m = days_in_month y' m.
Proof.
  intros Hm. unfold days_in_month.
  destruct (Z.eqb_spec m 2); [contradiction | reflexivity].
Qed.

(** Moving a stored birthday to another year fails for 29 February in a
    year that is not a leap year, and for nothing else. *)
Lemma replace_year_midnight d y :
  midnight_date d -> (1 <= y <= 9999)%Z ->
  replace_year d y =
  if (month d =? 2)%Z && (day d =? 29)%Z && negb (is_leap y)
  then Raise (ValueError LEAP_DAY_ERROR)
  else Ok (mkdatetime y (month d) (day d) 0 0 0 0).
Proof.
  destruct d as [y0 m dd hh mm ss us]. unfold midnight_date. simpl.
  intros (Hc & -> & -> & -> & ->) Hy.
  apply check_date_fields_Ok in Hc as (_ & Hm & Hd).
  unfold replace_year, datetime_new. simpl.
  destruct ((m =? 2)%Z && (dd =? 29)%Z && negb (is_leap y)) eqn:Htest.
  - apply andb_true_iff in Htest as [Htest Hleap].
    apply andb_true_iff in Htest as [Em Ed].
    apply Z.eqb_eq in Em, Ed. subst m dd.
    apply negb_true_iff in Hleap.
    unfold check_date_fields, MINYEAR, MAXYEAR.
    rewrite days_in_month_february, Hleap.
    destruct (Z.leb_spec 1 y), (Z.leb_spec y 9999); try lia. reflexivity.
  - assert (Hok : check_date_fields y m dd = Ok tt).
    { apply check_date_fields_Ok. repeat split; try lia.
      destruct (Z.eq_dec m 2) as [->|Hne].
      - rewrite days_in_month_february in *.
        destruct (is_leap y) eqn:Hl; [destruct (is_leap y0); lia|].
        simpl in Htest. rewrite andb_true_r in Htest.
        apply Z.eqb_neq in Htest. destruct (is_leap y0); lia.
      - now rewrite (days_in_month_same y y0 m Hne). }
    now rewrite Hok.
Qed.

Lemma upcoming_loop_leap_day pad_year today limit values :
  add_days today 7 = Some limit ->
  (1 <= year today <= 9999)%Z ->
  Forall (fun r => forall b, birthday r = Some b ->
                             midnight_date (birthday_value b)) values ->
  forall acc,
    upcoming_loop pad_year today values acc =
    if negb (is_leap (year today)) && existsb leap_day_birthday values
    then Raise (ValueError LEAP_DAY_ERROR)
    else Ok (acc ++ flat_map (upcoming_entry pad_year today limit) values).
Proof.
  intros Hlimit Hy. induction values as [|r values IH]; intros Hok acc.
  - simpl. rewrite andb_false_r. now rewrite app_nil_r.
  - inversion Hok as [|x l Hr Hrest]; subst.
    cbn [upcoming_loop flat_map existsb].
    unfold upcoming_entry at 1. unfold leap_day_birthday at 1.
    destruct (birthday r) as [b|] eqn:Hb.
    + rewrite (replace_year_midnight _ _ (Hr b eq_refl) Hy).
      destruct (month (birthday_value b) =? 2)%Z;
        destruct (day (birthday_value b) =? 29)%Z;
        destruct (is_leap (year today)) eqn:Hl; cbn [andb negb orb bind];
        try reflexivity;
        rewrite Hlimit;
        repeat match goal with
               | |- context [dt_le ?a ?b] => destruct (dt_le a b)
               end; cbn [andb];
        rewrite (IH Hrest), ?Hl; cbn [andb negb];
        try (destruct (existsb leap_day_birthday values));
        try reflexivity; now rewrite <- app_assoc.
    + cbn [orb app]. apply (IH Hrest).
Qed.

(** In a book reached from the empty one, on a day before the year 9999:
    if some contact has its birthday on 29 February and the year of
    [today] is not a leap year, [birthdays] lists nobody and answers
    "day is out of range for month"; otherwise
    [get_upcoming_birthdays] returns its list. *)
Theorem leap_day_birthday_breaks_birthdays :
  forall pad_year cs today args,
    valid today = true ->
    (year today <= 9998)%Z ->
    let book := run pad_year cs AddressBook_init in
    let broken := negb (is_leap (year today))
                  && existsb leap_day_birthday (List.map snd (records book)) in
    (broken = true ->
     birthdays pad_year today args book = (Ok LEAP_DAY_ERROR, book)) /\
    (broken = false ->
     exists l, get_upcoming_birthdays pad_year today book = Ok l).
Proof.
  intros pad_year cs today args Hv Hy book broken.
  destruct (add_days_week today Hv Hy) as [limit Hlimit].
  pose proof (valid_date_fields _ Hv) as Hc.
  apply check_date_fields_Ok in Hc as (Hyr & _ & _).
  assert (Hok : Forall (fun r => forall b, birthday r = Some b ->
                                           midnight_date (birthday_value b))
                       (List.map snd (records book))).
  { pose proof (run_birthdays_ok pad_year cs AddressBook_init (Forall_nil _))
      as H. fold book in H. unfold birthdays_ok in H.
    rewrite Forall_forall in *. intros r Hr.
    apply in_map_iff in Hr as (kv & <- & Hin). exact (H kv Hin). }
  pose proof (upcoming_loop_leap_day pad_year today limit _ Hlimit Hyr Hok [])
    as Hloop.
  fold broken in Hloop. split; intros Hbroken; rewrite Hbroken in Hloop.
  - unfold birthdays, input_error, birthdays_func, get_upcoming_birthdays.
    now rewrite Hloop.
  - eexists. exact Hloop.
Qed.

Lemma leap_day_birthday_breaks_birthdays_witness :
  let cs := [Add [lit "Eve"; lit "1234567890"];
             AddBirthday [lit "Eve"; lit "29.02.2024"]] in
  fst (birthdays false (afternoon 25 2 2023) [] (run false cs AddressBook_init))
  = Ok LEAP_DAY_ERROR /\
  exists l, get_upcoming_birthdays false (afternoon 25 2 2028)
              (run false cs AddressBook_init) = Ok l.
Proof.
  intros cs. split.
  - destruct (leap_day_birthday_breaks_birthdays
                false cs (afternoon 25 2 2023) [] eq_refl) as [H _].
    + simpl. lia.
    + now rewrite (H eq_refl).
  - destruct (leap_day_birthday_breaks_birthdays
                false cs (afternoon 25 2 2028) [] eq_refl) as [_ H].
    + simpl. lia.
    + exact (H eq_refl).
Defined.

(* ------------------------------------------------------------------ *)
(** ** Splitting the input line *)

Lemma flush_no_space cur :
  Forall (fun c => isspace_char c = false) cur -> Forall no_space (flush cur).
Proof.
  intros H. destruct cur; simpl; constructor; [|constructor].
  split; [discriminate | exact H].
Qed.

Lemma split_from_no_space s :
  forall cur,
    Forall (fun c => isspace_char c = false) cur ->
    Forall no_space (split_from cur s).
Proof.
  induction s as [|c s IH]; intros cur Hcur; simpl.
  - now apply flush_no_space.
  - destruct (isspace_char c) eqn:Hc.
    + apply Forall_app. split; [now apply flush_no_space | apply IH; constructor].
    + apply IH. apply Forall_app. split; [exact Hcur | now repeat constructor].
Qed.

Lemma split_from_spaces sp :
  Forall (fun c => isspace_char c = true) sp ->
  forall cur, split_from cur sp = flush cur.
Proof.
  induction sp as [|c sp IH]; intros H cur; simpl; [reflexivity|].
  inversion H as [|x l Hc Hsp]; subst. rewrite Hc, (IH Hsp). simpl.
  apply app_nil_r.
Qed.

Lemma split_from_app_spaces s sp :
  Forall (fun c => isspace_char c = true) sp ->
  forall cur, split_from cur (s ++ sp) = split_from cur s.
Proof.
  intros Hsp. induction s as [|c s IH]; intros cur; simpl.
  - now apply split_from_spaces.
  - destruct (isspace_char c); now rewrite IH.
Qed.

Lemma lstrip_decomposition s :
  exists sp, s = sp ++ lstrip s /\ Forall (fun c => isspace_char c = true) sp.
Proof.
  induction s as [|c s (sp & Hs & Hsp)]; simpl.
  - exists []. split; [reflexivity | constructor].
  - destruct (isspace_char c) eqn:Hc.
    + exists (c :: sp). split; [simpl; now f_equal | now constructor].
    + exists []. split; [reflexivity | constructor].
Qed.

Lemma split_lstrip s : split (lstrip s) = split s.
Proof.
  unfold split. induction s as [|c s IH]; simpl; [reflexivity|].
  destruct (isspace_char c) eqn:Hc; [exact IH|].
  simpl. now rewrite Hc.
Qed.

Lemma split_rstrip s : split (rstrip s) = split s.
Proof.
  unfold rstrip, split.
  destruct (lstrip_decomposition (rev s)) as (sp & Hs & Hsp).
  assert (E : s = rev (lstrip (rev s)) ++ rev sp).
  { rewrite <- rev_app_distr, <- Hs. now rewrite rev_involutive. }
  rewrite E at 2. symmetry. apply split_from_app_spaces.
  apply Forall_rev. exact Hsp.
Qed.

(** [strip] before [split] changes nothing. *)
Lemma split_strip s : split (strip s) = split s.
Proof. unfold strip. now rewrite split_rstrip, split_lstrip. Qed.

Lemma split_from_word w :
  Forall (fun c => isspace_char c = false) w ->
  forall cur s, split_from cur (w ++ s) = split_from (cur ++ w) s.
Proof.
  induction w as [|c w IH]; intros H cur s; simpl.
  - now rewrite app_nil_r.
  - inversion H as [|x l Hc Hw]; subst. rewrite Hc, (IH Hw).
    now rewrite <- app_assoc.
Qed.

Lemma split_from_SPACE cur s :
  split_from cur (SPACE ++ s) = flush cur ++ split_from [] s.
Proof. reflexivity. Qed.

Lemma split_from_join ws :
  Forall no_space ws ->
  forall cur,
    Forall (fun c => isspace_char c = false) cur ->
    split_from cur (join SPACE ws)
    = match ws with
      | [] => flush cur
      | w :: ws' => (cur ++ w) :: ws'
      end.
Proof.
  induction ws as [|w ws IH]; intros Hws cur Hcur; [reflexivity|].
  inversion Hws as [|x l [Hne Hw] Hrest]; subst.
  destruct ws as [|w2 ws].
  - simpl. rewrite <- (app_nil_r w) at 1. rewrite (split_from_word w Hw).
    simpl. destruct (cur ++ w) eqn:E; [|reflexivity].
    apply app_eq_nil in E as [_ E]. contradiction.
  - change (join SPACE (w :: w2 :: ws))
      with (w ++ SPACE ++ join SPACE (w2 :: ws)).
    rewrite (split_from_word w Hw), split_from_SPACE.
    rewrite (IH Hrest [] (Forall_nil _)). simpl.
    destruct (cur ++ w) eqn:E; [|reflexivity].
    apply app_eq_nil in E as [_ E]. contradiction.
Qed.

Lemma parse_input_blank lower user_input :
  Forall (fun c => isspace_char c = true) user_input ->
  parse_input lower user_input = ([], []).
Proof.
  intros Hblank. unfold parse_input. rewrite split_strip. unfold split.
  now rewrite (split_from_spaces user_input Hblank).
Qed.

(** The arguments [parse_input] hands to a handler are never empty and
    hold no whitespace, so that the test [if phone] of [add] is always
    true for them; and a line of nothing but whitespace gives the empty
    command and no argument. *)
Theorem parse_input_arguments :
  forall lower user_input,
    Forall no_space (snd (parse_input lower user_input)) /\
    (forall a, In a (snd (parse_input lower user_input)) -> truthy a = true) /\
    (Forall (fun c => isspace_char c = true) user_input ->
     parse_input lower user_input = ([], [])).
Proof.
  intros lower user_input. unfold parse_input. rewrite split_strip.
  assert (Hall : Forall no_space (split user_input))
    by (apply split_from_no_space; constructor).
  assert (Hargs : Forall no_space
                    (if (1 <? List.length (split user_input))%nat
                     then tl (split user_input) else [])).
  { destruct (1 <? List.length (split user_input))%nat; [|constructor].
    destruct (split user_input); [constructor|]. now inversion Hall. }
  simpl. split; [exact Hargs|]. split.
  - intros a Ha. rewrite Forall_forall in Hargs.
    destruct (Hargs a Ha) as [Hne _]. now destruct a.
  - intros Hblank. pose proof (parse_input_blank lower user_input Hblank) as E.
    unfold parse_input in E. now rewrite split_strip in E.
Qed.

Lemma parse_input_arguments_witness :
  parse_input ascii_lower (lit "   ") = ([], []).
Proof.
  apply (parse_input_arguments ascii_lower (lit "   ")).
  repeat constructor.
Defined.

(** A command word and arguments without whitespace, written on a line
    with single spaces between them, come back as the command in lower
    case and the same arguments. *)
Theorem parse_input_of_words :
  forall lower command args,
    Forall no_space (command :: args) ->
    parse_input lower (join SPACE (command :: args)) = (lower command, args).
Proof.
  intros lower command args Hws. unfold parse_input.
  rewrite split_strip. unfold split.
  rewrite (split_from_join _ Hws [] (Forall_nil _)). simpl.
  destruct args; reflexivity.
Qed.

Lemma parse_input_of_words_witness :
  parse_input ascii_lower (lit "ADD Bob 1234567890")
  = (lit "add", [lit "Bob"; lit "1234567890"]).
Proof.
  apply (parse_input_of_words ascii_lower (lit "ADD")
                              [lit "Bob"; lit "1234567890"]).
  repeat constructor; try discriminate.
Defined.

(* ------------------------------------------------------------------ *)
(** ** The loop of [main] *)

Section MainProperties.

Variable lower : str -> str.
Variable pad_year : bool.

Lemma handler_of_dispatch word today h :
  handler_of pad_year word today = Some h ->
  exists mk : list str -> command,
    forall args book, h args book = dispatch pad_year (mk args) book.
Proof.
  unfold handler_of.
  repeat match goal with
         | |- context [if ?c then _ else _] => destruct c
         end; intros H; inversion H; subst.
  - now exists Add.
  - now exists Change.
  - now exists PhoneCmd.
  - now exists All.
  - now exists AddBirthday.
  - now exists ShowBirthday.
  - now exists (Birthdays today).
Qed.

Lemma main_loop_run inputs :
  forall book,
    exists cs,
      book_of (main_loop lower pad_year inputs book) = run pad_year cs book.
Proof.
  induction inputs as [|[line today] inputs IH]; intros book.
  - now exists [].
  - cbn [main_loop]. destruct (parse_input lower line) as [command args].
    destruct (eqb command (lit "close") || eqb command (lit "exit"));
      [now exists []|].
    destruct (eqb command (lit "hello")).
    { destruct (IH book) as [cs Hcs]. exists cs.
      destruct (main_loop lower pad_year inputs book) as [[ev o] bk].
      exact Hcs. }
    destruct (handler_of pad_year command today) as [h|] eqn:Hh.
    + destruct (handler_of_dispatch _ _ _ Hh) as [mk Hmk].
      destruct (h args book) as [[s|e] book1] eqn:Hr.
      * destruct (IH book1) as [cs Hcs]. exists (mk args :: cs).
        simpl. rewrite <- Hmk, Hr. simpl.
        destruct (main_loop lower pad_year inputs book1) as [[ev o] bk].
        exact Hcs.
      * exists [mk args]. simpl. now rewrite <- Hmk, Hr.
    + destruct (IH book) as [cs Hcs]. exists cs.
      destruct (main_loop lower pad_year inputs book) as [[ev o] bk].
      exact Hcs.
Qed.

Lemma handler_of_raises command today h args book e :
  handler_of pad_year command today = Some h ->
  fst (h args book) = Raise e ->
  e = AttributeError \/ e = OverflowError.
Proof.
  intros Hh Hr.
  unfold handler_of in Hh.
  repeat match type of Hh with
         | context [if ?c then _ else _] => destruct c
         end; inversion Hh; subst.
  - destruct (add_contact_answers args book) as [s Hs]. congruence.
  - left. apply (change_phone_raises _ _ _ Hr).
  - left. apply (show_phones_raises _ _ _ Hr).
  - destruct (show_all_answers args book) as [s Hs]. congruence.
  - left. apply (add_birthday_raises _ _ _ Hr).
  - left. apply (show_birthday_raises _ _ _ _ Hr).
  - right. apply (birthdays_raises _ _ _ _ _ Hr).
Qed.

Lemma main_loop_crash inputs :
  forall book e,
    outcome_of (main_loop lower pad_year inputs book) = Crashed e ->
    e = AttributeError \/ e = OverflowError.
Proof.
  induction inputs as [|[line today] inputs IH]; intros book e.
  - discriminate.
  - cbn [main_loop]. destruct (parse_input lower line) as [command args].
    destruct (eqb command (lit "close") || eqb command (lit "exit"));
      [discriminate|].
    destruct (eqb command (lit "hello")).
    { specialize (IH book e).
      destruct (main_loop lower pad_year inputs book) as [[ev o] bk].
      exact IH. }
    destruct (handler_of pad_year command today) as [h|] eqn:Hh.
    + destruct (h args book) as [[s|e'] book1] eqn:Hr.
      * specialize (IH book1 e).
        destruct (main_loop lower pad_year inputs book1) as [[ev o] bk].
        exact IH.
      * unfold outcome_of. simpl. intros E. inversion E; subst.
        eapply handler_of_raises; [exact Hh | now rewrite Hr].
    + specialize (IH book e).
      destruct (main_loop lower pad_year inputs book) as [[ev o] bk].
      exact IH.
Qed.

Lemma main_loop_answers inputs :
  forall book,
    outcome_of (main_loop lower pad_year inputs book) = EndOfInput ->
    exists msgs,
      List.length msgs = List.length inputs /\
      events_of (main_loop lower pad_year inputs book)
      = answered msgs ++ [Prompted PROMPT].
Proof.
  induction inputs as [|[line today] inputs IH]; intros book.
  - intros _. now exists [].
  - cbn [main_loop]. destruct (parse_input lower line) as [word args].
    destruct (eqb word (lit "close") || eqb word (lit "exit"));
      [discriminate|].
    destruct (eqb word (lit "hello")).
    { specialize (IH book).
      destruct (main_loop lower pad_year inputs book) as [[ev o] bk].
      unfold outcome_of, events_of in *. simpl in *.
      intros Ho. destruct (IH Ho) as (msgs & Hlen & ->).
      exists (lit "How can I help you?" :: msgs). simpl. now rewrite Hlen. }
    destruct (handler_of pad_year word today) as [h|] eqn:Hh.
    + destruct (h args book) as [[s|e'] book1] eqn:Hr; [|discriminate].
      specialize (IH book1).
      destruct (main_loop lower pad_year inputs book1) as [[ev o] bk].
      unfold outcome_of, events_of in *. simpl in *.
      intros Ho. destruct (IH Ho) as (msgs & Hlen & ->).
      exists (s :: msgs). simpl. now rewrite Hlen.
    + specialize (IH book).
      destruct (main_loop lower pad_year inputs book) as [[ev o] bk].
      unfold outcome_of, events_of in *. simpl in *.
      intros Ho. destruct (IH Ho) as (msgs & Hlen & ->).
      exists (lit "Invalid command." :: msgs). simpl. now rewrite Hlen.
Qed.

Lemma main_loop_exit before :
  forall line today after book,
    fst (parse_input lower line) = lit "close"
    \/ fst (parse_input lower line) = lit "exit" ->
    main_loop lower pad_year (before ++ (line, today) :: after) book
    = main_loop lower pad_year (before ++ [(line, today)]) book.
Proof.
  induction before as [|[l t] before IH]; intros line today after book Hexit.
  - cbn [app main_loop]. destruct (parse_input lower line) as [command args].
    simpl in Hexit.
    assert (E : eqb command (lit "close") || eqb command (lit "exit") = true).
    { destruct Hexit as [->| ->]; reflexivity. }
    now rewrite E.
  - cbn [app main_loop]. destruct (parse_input lower l) as [command args].
    destruct (eqb command (lit "close") || eqb command (lit "exit"));
      [reflexivity|].
    destruct (eqb command (lit "hello")).
    { now rewrite (IH line today after book Hexit). }
    destruct (handler_of pad_year command t) as [h|].
    + destruct (h args book) as [[s|e] book1]; [|reflexivity].
      now rewrite (IH line today after book1 Hexit).
    + now rewrite (IH line today after book Hexit).
Qed.

End MainProperties.

(** Whatever is typed, the book [main] ends with is one that a sequence
    of handler invocations builds from the empty book, so every stored
    phone is ten digits; and if the program ends on an exception, it is
    the [AttributeError] of an unknown name or the [OverflowError] of
    [birthdays]. *)
Theorem main_session_invariants :
  forall lower pad_year inputs,
    let r := main lower pad_year inputs in
    (exists cs, book_of r = run pad_year cs AddressBook_init) /\
    book_ok (book_of r) /\
    (forall e, outcome_of r = Crashed e ->
               e = AttributeError \/ e = OverflowError).
Proof.
  intros lower pad_year inputs r.
  destruct (main_loop_run lower pad_year inputs AddressBook_init) as [cs Hcs].
  pose proof (main_loop_crash lower pad_year inputs AddressBook_init) as Hcrash.
  unfold r, main.
  destruct (main_loop lower pad_year inputs AddressBook_init) as [[ev o] bk].
  unfold book_of, outcome_of in *. simpl in *.
  split; [now exists cs|]. split; [|exact Hcrash].
  rewrite Hcs. apply run_ok. constructor.
Qed.

Lemma main_session_invariants_witness :
  outcome_of (main ascii_lower true
                   [(lit "add Bob 1234567890", afternoon 10 6 2024);
                    (lit "phone Carl", afternoon 10 6 2024);
                    (lit "exit", afternoon 10 6 2024)])
  = Crashed AttributeError /\
  (AttributeError = AttributeError \/ AttributeError = OverflowError).
Proof.
  split; [reflexivity|].
  apply (main_session_invariants
           ascii_lower true
           [(lit "add Bob 1234567890", afternoon 10 6 2024);
            (lit "phone Carl", afternoon 10 6 2024);
            (lit "exit", afternoon 10 6 2024)]).
  reflexivity.
Defined.

Lemma answered_length msgs :
  List.length (answered msgs) = (2 * List.length msgs)%nat /\
  List.length (List.filter is_printed (answered msgs)) = List.length msgs.
Proof.
  induction msgs as [|m msgs [IH1 IH2]]; simpl; [auto|].
  rewrite IH1, IH2. split; lia.
Qed.

(** A session that runs to the end of its input answers every line, in
    this order: the welcome first; then, for each input line, the prompt
    followed by exactly one message; and at the end the prompt at which
    the input runs out.  So there are as many messages after the welcome
    as input lines. *)
Theorem main_answers_every_line :
  forall lower pad_year inputs,
    let r := main lower pad_year inputs in
    outcome_of r = EndOfInput ->
    (exists msgs,
        List.length msgs = List.length inputs /\
        events_of r = Printed WELCOME :: answered msgs ++ [Prompted PROMPT]) /\
    List.length (List.filter is_printed (events_of r))
    = S (List.length inputs) /\
    List.length (events_of r) = (2 * List.length inputs + 2)%nat.
Proof.
  intros lower pad_year inputs r.
  pose proof (main_loop_answers lower pad_year inputs AddressBook_init) as H.
  unfold r, main.
  destruct (main_loop lower pad_year inputs AddressBook_init) as [[ev o] bk].
  unfold outcome_of, events_of in *. simpl in *.
  intros Ho. destruct (H Ho) as (msgs & Hlen & ->).
  destruct (answered_length msgs) as [Hl Hf].
  split; [exists msgs; split; [exact Hlen | reflexivity]|].
  rewrite filter_app, !length_app, Hl, Hf. simpl. split; lia.
Qed.

Lemma main_answers_every_line_witness :
  events_of (main ascii_lower true
                  [(lit "hello", afternoon 10 6 2024);
                   (lit "", afternoon 10 6 2024);
                   (lit "add Bob 12", afternoon 10 6 2024)])
  = [Printed WELCOME;
     Prompted PROMPT; Printed (lit "How can I help you?");
     Prompted PROMPT; Printed (lit "Invalid command.");
     Prompted PROMPT; Printed PHONE_ERROR;
     Prompted PROMPT] /\
  List.length
    (List.filter is_printed
       (events_of (main ascii_lower true
                        [(lit "hello", afternoon 10 6 2024);
                         (lit "", afternoon 10 6 2024);
                         (lit "add Bob 12", afternoon 10 6 2024)])))
  = 4%nat.
Proof.
  split; [reflexivity|].
  apply (main_answers_every_line
           ascii_lower true
           [(lit "hello", afternoon 10 6 2024);
            (lit "", afternoon 10 6 2024);
            (lit "add Bob 12", afternoon 10 6 2024)]).
  reflexivity.
Defined.

(** At a line whose first word is "close" or "exit" in lower case the
    loop prints "Good bye!" and ends; what is typed after that line is
    never read. *)
Theorem main_stops_at_exit :
  forall lower pad_year before line today after book,
    fst (parse_input lower line) = lit "close"
    \/ fst (parse_input lower line) = lit "exit" ->
    main_loop lower pad_year (before ++ (line, today) :: after) book
    = main_loop lower pad_year (before ++ [(line, today)]) book /\
    main_loop lower pad_year ((line, today) :: after) book
    = ([Prompted PROMPT; Printed (lit "Good bye!")], Exited, book).
Proof.
  intros lower pad_year before line today after book Hexit.
  split; [now apply main_loop_exit|].
  cbn [main_loop]. destruct (parse_input lower line) as [command args].
  simpl in Hexit. destruct Hexit as [->| ->]; reflexivity.
Qed.

Lemma main_stops_at_exit_witness :
  main_loop ascii_lower true
            [(lit "  EXIT now", afternoon 10 6 2024);
             (lit "add Bob 1234567890", afternoon 10 6 2024)]
            bob_book
  = ([Prompted PROMPT; Printed (lit "Good bye!")], Exited, bob_book).
Proof.
  apply (main_stops_at_exit ascii_lower true [] (lit "  EXIT now")
                            (afternoon 10 6 2024)
                            [(lit "add Bob 1234567890", afternoon 10 6 2024)]
                            bob_book).
  right. reflexivity.
Defined.

(** A line of nothing but whitespace, the empty line included, is
    answered "Invalid command." and changes nothing. *)
Theorem main_blank_line :
  forall lower pad_year line today rest book,
    Forall (fun c => isspace_char c = true) line ->
    let r := main_loop lower pad_year rest book in
    main_loop lower pad_year ((line, today) :: rest) book
    = (Prompted PROMPT :: Printed (lit "Invalid command.") :: events_of r,
       outcome_of r, book_of r).
Proof.
  intros lower pad_year line today rest book Hblank r. subst r.
  cbn [main_loop].
  rewrite (parse_input_blank lower line Hblank). simpl.
  now destruct (main_loop lower pad_year rest book) as [[ev o] bk].
Qed.

Lemma main_blank_line_witness :
  main_loop ascii_lower true [(lit " ", afternoon 10 6 2024)] bob_book
  = ([Prompted PROMPT; Printed (lit "Invalid command."); Prompted PROMPT],
     EndOfInput, bob_book).
Proof.
  apply (main_blank_line ascii_lower true (lit " ") (afternoon 10 6 2024)
                         [] bob_book).
  repeat constructor.
Defined.

(* ------------------------------------------------------------------ *)
(** ** A birthday that falls today *)

Lemma upcoming_loop_listed_from pad_year today values :
  forall acc l,
    upcoming_loop pad_year today values acc = Ok l ->
    forall x, In x l ->
      In x acc \/
      exists record b d,
        In record values /\ birthday record = Some b /\
        replace_year (birthday_value b) (year today) = Ok d /\
        dt_le today d = true /\
        x = (name_value (name record), strftime_dmY pad_year d).
Proof.
  induction values as [|record values IH]; intros acc l; simpl.
  - intros H. inversion H; subst. auto.
  - assert (Hskip : upcoming_loop pad_year today values acc = Ok l ->
                    forall x, In x l ->
                      In x acc \/
                      exists record0 b d,
                        (record = record0 \/ In record0 values) /\
                        birthday record0 = Some b /\
                        replace_year (birthday_value b) (year today) = Ok d /\
                        dt_le today d = true /\
                        x = (name_value (name record0),
                             strftime_dmY pad_year d)).
    { intros H x Hx.
      destruct (IH _ _ H x Hx) as [Ha|(r & b & d & Hr & Hrest)]; [now left|].
      right. exists r, b, d. tauto. }
    destruct (birthday record) as [b|] eqn:Hb; [|exact Hskip].
    destruct (replace_year (birthday_value b) (year today)) as [d|e] eqn:Hr;
      simpl; [|discriminate].
    destruct (dt_le today d) eqn:Hle; [|exact Hskip].
    destruct (add_days today 7) as [limit|]; [|discriminate].
    destruct (dt_le d limit); [|exact Hskip].
    intros H x Hx.
    destruct (IH _ _ H x Hx) as [Ha|(r & b' & d' & Hin & Hrest)].
    + apply in_app_or in Ha as [Ha|[<-|[]]]; [now left|].
      right. exists record, b, d. auto.
    + right. exists r, b', d'. tauto.
Qed.

(** In a book reached from the empty one, once the day has begun
    (the time of [today] is past midnight), nobody whose birthday falls
    on the day of [today] is listed: every listed birthday has another
    month or another day than [today]. *)
Theorem birthday_today_is_not_listed :
  forall pad_year cs today l n s,
    (0 <= hour today /\ 0 <= minute today /\ 0 <= second today
     /\ 0 <= microsecond today)%Z ->
    (0 < hour today \/ 0 < minute today \/ 0 < second today
     \/ 0 < microsecond today)%Z ->
    let book := run pad_year cs AddressBook_init in
    get_upcoming_birthdays pad_year today book = Ok l ->
    In (n, s) l ->
    exists k record b,
      In (k, record) (records book) /\ birthday record = Some b /\
      n = name_value (name record) /\
      ~ (month (birthday_value b) = month today
         /\ day (birthday_value b) = day today).
Proof.
  intros pad_year cs today l n s Hnonneg Hpos book Hl Hin.
  destruct (upcoming_loop_listed_from _ _ _ _ _ Hl _ Hin)
    as [[]|(record & b & d & Hr & Hb & Hrep & Hle & Hx)].
  apply in_map_iff in Hr as ([k r] & E & Hr). simpl in E. subst r.
  exists k, record, b. repeat split; auto; [congruence|].
  intros [Hm Hd].
  pose proof (run_birthdays_ok pad_year cs AddressBook_init (Forall_nil _))
    as Hok. fold book in Hok. unfold birthdays_ok in Hok.
  rewrite Forall_forall in Hok.
  destruct (Hok _ Hr b Hb) as (_ & Hh & Hmi & Hs & Hu).
  apply replace_year_Ok in Hrep. rewrite Hm, Hd, Hh, Hmi, Hs, Hu in Hrep.
  subst d. rewrite (dt_le_same_day_false today Hnonneg Hpos) in Hle.
  discriminate Hle.
Qed.

Lemma birthday_today_is_not_listed_witness :
  exists k record b,
    In (k, record)
       (records (run false [Add [lit "Ann"; lit "1"];
                            AddBirthday [lit "Ann"; lit "10.06.1990"];
                            Add [lit "Dan"; lit "2"];
                            AddBirthday [lit "Dan"; lit "12.06.1990"]]
                     AddressBook_init))
    /\ birthday record = Some b /\
    lit "Dan" = name_value (name record) /\
    ~ (month (birthday_value b) = month (afternoon 10 6 2024)
       /\ day (birthday_value b) = day (afternoon 10 6 2024)).
Proof.
  apply (birthday_today_is_not_listed
           false
           [Add [lit "Ann"; lit "1"];
            AddBirthday [lit "Ann"; lit "10.06.1990"];
            Add [lit "Dan"; lit "2"];
            AddBirthday [lit "Dan"; lit "12.06.1990"]]
           (afternoon 10 6 2024)
           [(lit "Dan", lit "12.06.2024")] (lit "Dan") (lit "12.06.2024")).
  - simpl. lia.
  - simpl. lia.
  - reflexivity.
  - left. reflexivity.
Defined.
